(** * Verification of the py-spy monitoring and reporting scripts

    Shallow embedding of [scripts/spy/report.py]
    ([PerformanceReportGenerator]) and of the process helpers of
    [scripts/spy/monitor.py] ([find_process_by_port], [wait_for_app_start],
    [kill_process_tree]), followed by the properties the design document
    states about them.

    Conventions.
    - A file is the [string] of its bytes, and a Python [str] is held in its
      UTF-8 form, so that an ASCII text is the [string] of its characters.
      Whitespace, digits and letters are the ASCII ones: the bytes above 127
      are carried through unchanged, and on a text with Unicode blanks or
      digits [str.strip], [int], [\s] and [\d] do more than their models
      here.  Properties that depend on it are stated for ASCII artifacts.
    - Python [int] is [Z]; a [defaultdict(int)] is an association list in
      insertion order (the order in which Python iterates a dict).
    - [sys.exit(1)] inside a parser is the outcome [Exit 1].
    - A Python [float] is a [spec_float] at binary64 (53 bits, emax 1024). *)

From Stdlib Require Import ZArith List Bool Ascii String Lia Permutation.
From Stdlib Require Import Sorting.Sorted SpecFloat DecimalString.
Import ListNotations.

Local Open Scope list_scope.
Local Open Scope string_scope.
Local Open Scope Z_scope.

(** ** Python string primitives *)

Module PyStr.

Definition TAB : ascii := ascii_of_nat 9.
Definition LF : ascii := ascii_of_nat 10.
Definition CR : ascii := ascii_of_nat 13.

Definition code (c : ascii) : nat := nat_of_ascii c.

(** [str.isspace] on one ASCII character: TAB, LF, VT, FF, CR, the four
    separators FS, GS, RS, US, and the blank. *)
Definition is_space (c : ascii) : bool :=
  let n := code c in
  ((9 <=? n) && (n <=? 13) || (28 <=? n) && (n <=? 32))%nat.

Definition is_digit (c : ascii) : bool :=
  let n := code c in ((48 <=? n) && (n <=? 57))%nat.

Definition digit_val (c : ascii) : Z := Z.of_nat (code c) - 48.

Definition lower_char (c : ascii) : ascii :=
  let n := code c in
  if ((65 <=? n) && (n <=? 90))%nat then ascii_of_nat (n + 32) else c.

(** [s.lower()] *)
Fixpoint lower (s : string) : string :=
  match s with
  | EmptyString => EmptyString
  | String c s' => String (lower_char c) (lower s')
  end.

Fixpoint lstrip_by (ws : ascii -> bool) (s : string) : string :=
  match s with
  | EmptyString => EmptyString
  | String c s' => if ws c then lstrip_by ws s' else s
  end.

Fixpoint rstrip_by (ws : ascii -> bool) (s : string) : string :=
  match s with
  | EmptyString => EmptyString
  | String c s' =>
      match rstrip_by ws s' with
      | EmptyString => if ws c then EmptyString else String c EmptyString
      | r => String c r
      end
  end.

(** [s.strip()] *)
Definition strip (s : string) : string :=
  rstrip_by is_space (lstrip_by is_space s).

(** [sub in s] *)
Fixpoint contains (sub s : string) : bool :=
  if String.prefix sub s then true
  else match s with
       | EmptyString => false
       | String _ s' => contains sub s'
       end.

(** [c in s] for a one-character needle, as in ['\t' in line]. *)
Definition has_char (c : ascii) (s : string) : bool :=
  contains (String c EmptyString) s.

(** [s.split(sep)] for a one-character separator: every occurrence of
    [sep] cuts, empty fields are kept, and the empty string gives [[""]]. *)
Fixpoint split (sep : ascii) (s : string) : list string :=
  match s with
  | EmptyString => [EmptyString]
  | String c s' =>
      if Ascii.eqb c sep then EmptyString :: split sep s'
      else match split sep s' with
           | h :: t => String c h :: t
           | [] => [String c EmptyString]
           end
  end.

(** [int(s)] in base 10.  Surrounding whitespace (here only TAB, LF, VT,
    FF, CR and the blank) is dropped, one sign is allowed, and single
    underscores may separate digits.  A literal of more digits than
    [sys.get_int_max_str_digits()], 4300 unless the interpreter is told
    otherwise, is refused; the sign, the underscores and the blanks do not
    count, leading zeros do.  [None] stands for [ValueError]. *)
Definition is_int_space (c : ascii) : bool :=
  let n := code c in ((9 <=? n) && (n <=? 13) || (n =? 32))%nat.

Definition int_max_str_digits : Z := 4300.

Fixpoint count_digits (s : string) : Z :=
  match s with
  | EmptyString => 0
  | String c s' => if is_digit c then 1 + count_digits s' else count_digits s'
  end.

Inductive int_state := NeedDigit | AfterDigit.

Fixpoint int_digits (st : int_state) (acc : Z) (s : string) : option Z :=
  match s with
  | EmptyString =>
      match st with AfterDigit => Some acc | NeedDigit => None end
  | String c s' =>
      if is_digit c then int_digits AfterDigit (10 * acc + digit_val c) s'
      else if Ascii.eqb c "_"%char then
        match st with
        | AfterDigit => int_digits NeedDigit acc s'
        | NeedDigit => None
        end
      else None
  end.

Definition int (s : string) : option Z :=
  if int_max_str_digits <? count_digits s then None
  else
    match rstrip_by is_int_space (lstrip_by is_int_space s) with
    | String "-"%char s' => option_map Z.opp (int_digits NeedDigit 0 s')
    | String "+"%char s' => int_digits NeedDigit 0 s'
    | s' => int_digits NeedDigit 0 s'
    end.

(** A character of ASCII. *)
Definition is_ascii (c : ascii) : bool := (code c <? 128)%nat.

(** [bytes.decode('utf-8')], as [open(path, 'r', encoding='utf-8')] applies
    it to what it reads: the well-formed byte sequences are those of one
    byte below 128, of a lead byte C2..DF and one continuation byte, of
    E0..EF and two, and of F0..F4 and three, without the overlong forms
    (E0 80..9F, F0 80..8F), the surrogates (ED A0..BF) and what lies beyond
    U+10FFFF (F4 90..BF). *)
Definition between (lo hi : nat) (c : ascii) : bool :=
  ((lo <=? code c) && (code c <=? hi))%nat.

Definition continuation (c : ascii) : bool := between 128 191 c.

Definition second_of_three (lead c : ascii) : bool :=
  if (code lead =? 224)%nat then between 160 191 c
  else if (code lead =? 237)%nat then between 128 159 c
  else continuation c.

Definition second_of_four (lead c : ascii) : bool :=
  if (code lead =? 240)%nat then between 144 191 c
  else if (code lead =? 244)%nat then between 128 143 c
  else continuation c.

Fixpoint utf8 (raw : string) : bool :=
  match raw with
  | EmptyString => true
  | String b0 s1 =>
      if is_ascii b0 then utf8 s1
      else
        match s1 with
        | String b1 s2 =>
            if between 194 223 b0 then continuation b1 && utf8 s2
            else
              match s2 with
              | String b2 s3 =>
                  if between 224 239 b0
                  then second_of_three b0 b1 && continuation b2 && utf8 s3
                  else
                    match s3 with
                    | String b3 s4 =>
                        between 240 244 b0 && second_of_four b0 b1
                        && continuation b2 && continuation b3 && utf8 s4
                    | EmptyString => false
                    end
              | EmptyString => false
              end
        | EmptyString => false
        end
  end.

(** The text of a file with the bytes [raw]; [None] stands for
    [UnicodeDecodeError]. *)
Definition decode (raw : string) : option string :=
  if utf8 raw then Some raw else None.

(** A file opened in text mode with the default [newline=None] hands over
    CR LF and a lone CR as LF.  [read] is [f.read()] on the text of the
    file. *)
Fixpoint read (s : string) : string :=
  match s with
  | EmptyString => EmptyString
  | String c s' =>
      if Ascii.eqb c CR then
        match s' with
        | String c' s'' =>
            if Ascii.eqb c' LF then String LF (read s'')
            else String LF (read s')
        | EmptyString => String LF EmptyString
        end
      else String c (read s')
  end.

(** [readlines] is the iteration [for line in f]: every line keeps its
    terminator, the last one may lack it. *)
Definition cons_char (c : ascii) (ls : list string) : list string :=
  match ls with
  | h :: t => String c h :: t
  | [] => [String c EmptyString]
  end.

Definition NL : string := String LF EmptyString.

Fixpoint readlines (s : string) : list string :=
  match s with
  | EmptyString => []
  | String c s' =>
      if Ascii.eqb c LF then NL :: readlines s'
      else if Ascii.eqb c CR then
        match s' with
        | String c' s'' =>
            if Ascii.eqb c' LF then NL :: readlines s''
            else NL :: readlines s'
        | EmptyString => [NL]
        end
      else cons_char c (readlines s')
  end.

End PyStr.

(** ** [defaultdict(int)] in insertion order *)

Module Dict.

Definition t := list (string * Z).

Definition empty : t := [].

(** [d[k]] read without inserting; a missing key reads as [0]. *)
Fixpoint get (k : string) (d : t) : Z :=
  match d with
  | [] => 0
  | (k', v) :: d' => if String.eqb k k' then v else get k d'
  end.

(** [d[k] += v]: an existing key keeps its place, a new key goes last. *)
Fixpoint add (k : string) (v : Z) (d : t) : t :=
  match d with
  | [] => [(k, 0 + v)]
  | (k', v') :: d' =>
      if String.eqb k k' then (k', v' + v) :: d'
      else (k', v') :: add k v d'
  end.

Definition keys (d : t) : list string := map fst d.
Definition values (d : t) : list Z := map snd d.
Definition items (d : t) : list (string * Z) := d.

(** [sum(d.values())] *)
Definition sum (l : list Z) : Z := fold_left Z.add l 0.

End Dict.

(** ** The regular expression of [_parse_svg]

    [re.findall] with the pattern
    [<g[^>]*>\s*<title>([^<]+)\s*\(\d+\s*samples[^<]*</title>]:
    a sequence of literals and greedy repetitions of character classes with
    one capture group, matched by backtracking as [re] does. *)

Module Re.

Inductive item :=
| Lit (l : string)                 (* literal text *)
| One (cls : ascii -> bool)        (* one character of a class *)
| Star (cls : ascii -> bool)       (* greedy [cls*] *)
| Open                             (* the group opens *)
| Close.                           (* the group closes *)

(** greedy [cls+] *)
Definition plus (cls : ascii -> bool) : list item := [One cls; Star cls].

(** State of the capture group: not yet opened, open with the characters
    taken so far (latest first), or closed with its text. *)
Inductive group := Before | Inside (acc : list ascii) | After (text : string).

Definition feed (c : ascii) (g : group) : group :=
  match g with
  | Inside acc => Inside (c :: acc)
  | _ => g
  end.

Fixpoint feed_string (l : string) (g : group) : group :=
  match l with
  | EmptyString => g
  | String c l' => feed_string l' (feed c g)
  end.

Definition close (g : group) : group :=
  match g with
  | Inside acc => After (string_of_list_ascii (rev acc))
  | _ => g
  end.

Definition group_text (g : group) : string :=
  match g with
  | After text => text
  | Inside acc => string_of_list_ascii (rev acc)
  | Before => EmptyString
  end.

(** [drop_prefix l s] is what follows [l] in [s], when [s] starts with [l]. *)
Fixpoint drop_prefix (l s : string) : option string :=
  match l, s with
  | EmptyString, _ => Some s
  | String a l', String b s' =>
      if Ascii.eqb a b then drop_prefix l' s' else None
  | String _ _, EmptyString => None
  end.

(** A greedy repetition of the class [cls] followed by [k]: take as many
    characters as possible, and give them back one at a time while [k]
    fails on what follows. *)
Fixpoint star_loop (k : group -> string -> option (string * string))
  (cls : ascii -> bool) (g : group) (s : string)
  : option (string * string) :=
  match s with
  | String c s' =>
      if cls c then
        match star_loop k cls (feed c g) s' with
        | Some r => Some r
        | None => k g s
        end
      else k g s
  | EmptyString => k g s
  end.

(** Match [p] at the start of [s]; the result is the text of the group
    and the unread rest of [s]. *)
Fixpoint match_here (p : list item) (g : group) (s : string)
  : option (string * string) :=
  match p with
  | [] => Some (group_text g, s)
  | Lit l :: p' =>
      match drop_prefix l s with
      | Some s' => match_here p' (feed_string l g) s'
      | None => None
      end
  | One cls :: p' =>
      match s with
      | String c s' => if cls c then match_here p' (feed c g) s' else None
      | EmptyString => None
      end
  | Star cls :: p' => star_loop (match_here p') cls g s
  | Open :: p' => match_here p' (Inside []) s
  | Close :: p' => match_here p' (close g) s
  end.

(** [re.findall] for a pattern with one group that cannot match the empty
    string: scan from the left, keep the group of each match and resume
    where the match ended; on failure move one character on. *)
Fixpoint findall_from (p : list item) (fuel : nat) (s : string)
  : list string :=
  match fuel with
  | O => []
  | S fuel' =>
      match match_here p Before s with
      | Some (text, rest) => text :: findall_from p fuel' rest
      | None =>
          match s with
          | EmptyString => []
          | String _ s' => findall_from p fuel' s'
          end
      end
  end.

Definition findall (p : list item) (s : string) : list string :=
  findall_from p (S (String.length s)) s.

Definition not_char (x : ascii) (c : ascii) : bool := negb (Ascii.eqb c x).

(** The pattern of [_parse_svg]. *)
Definition svg_title : list item :=
  ([Lit "<g"; Star (not_char ">"); Lit ">"; Star PyStr.is_space;
   Lit "<title>"; Open] ++ plus (not_char "<") ++ [Close;
   Star PyStr.is_space; Lit "("] ++ plus PyStr.is_digit ++
  [Star PyStr.is_space; Lit "samples"; Star (not_char "<"); Lit "</title>"])%list.

End Re.

(** ** Python floats, as far as the report uses them *)

Module PyFloat.

Definition prec : Z := 53.
Definition emax : Z := 1024.

Definition zero : spec_float := S754_zero false.

(** An integer as the exact, unrounded operand of a division. *)
Definition raw (z : Z) : spec_float :=
  match z with
  | Z0 => S754_zero false
  | Zpos p => S754_finite false p 0
  | Zneg p => S754_finite true p 0
  end.

(** [float(z)] *)
Definition of_int (z : Z) : spec_float := binary_normalize prec emax z 0 false.

(** [a / b] on two [int]s with [b <> 0]: the quotient rounded once, to
    nearest-even.  (Python raises [OverflowError] where this gives an
    infinity, beyond 1.8e308.) *)
Definition truediv (a b : Z) : spec_float := SFdiv prec emax (raw a) (raw b).

(** [x * n] for a float [x] and an int [n] *)
Definition mul_int (x : spec_float) (n : Z) : spec_float :=
  SFmul prec emax x (of_int n).

(** [x > n] for a float [x] and an int [n] *)
Definition gt_int (x : spec_float) (n : Z) : bool := SFltb (of_int n) x.

(** [n / d] rounded to the nearest integer, ties to even ([0 <= n], [0 < d]). *)
Definition div_half_even (n d : Z) : Z :=
  let q := n / d in
  let r := n mod d in
  match 2 * r ?= d with
  | Lt => q
  | Gt => q + 1
  | Eq => if Z.even q then q else q + 1
  end.

(** Sign of [x] and [|x| * scale] rounded to an integer, for finite [x]:
    the decimal digits that correctly rounded float-to-decimal conversion
    produces. *)
Definition scaled (scale : Z) (x : spec_float) : option (bool * Z) :=
  match x with
  | S754_zero s => Some (s, 0)
  | S754_finite s m e =>
      let n := Zpos m * scale in
      if 0 <=? e then Some (s, n * 2 ^ e)
      else Some (s, div_half_even n (2 ^ (- e)))
  | _ => None
  end.

(** [round(x, 2)] *)
Definition round2 (x : spec_float) : spec_float :=
  match scaled 100 x with
  | Some (s, 0) => S754_zero s
  | Some (s, k) => SFdiv prec emax (raw (if s then - k else k)) (raw 100)
  | None => x
  end.

Definition decimal (z : Z) : string :=
  DecimalString.NilZero.string_of_int (Z.to_int z).

(** [f"{x:.1f}"] *)
Definition format_1f (x : spec_float) : string :=
  match scaled 10 x with
  | Some (s, k) =>
      (if s then "-" else "") ++ decimal (k / 10) ++ "." ++ decimal (k mod 10)
  | None =>
      match x with
      | S754_infinity s => if s then "-inf" else "inf"
      | _ => "nan"
      end
  end.

End PyFloat.

(** ** [PerformanceReportGenerator] *)

Module Report.

(** A parser either leaves the frequency table [self.data] or ends the
    program through [sys.exit]. *)
Inductive outcome (A : Type) :=
| Done (a : A)
| Exit (status : Z).
Arguments Done {A} a.
Arguments Exit {A} status.

(** *** [_parse_svg] *)

Definition count_match (data : Dict.t) (func_name : string) : Dict.t :=
  Dict.add (PyStr.strip func_name) 1 data.

Definition matches (content : string) : list string :=
  Re.findall Re.svg_title (PyStr.read content).

(** The body of the [try] raises when the file is not UTF-8
    ([UnicodeDecodeError] is an [Exception]); [raw] is the bytes of the
    file. *)
Definition _parse_svg (raw : string) : outcome Dict.t :=
  match PyStr.decode raw with
  | Some content => Done (fold_left count_match (matches content) Dict.empty)
  | None => Exit 1
  end.

(** *** [_parse_json]

    The file is opened in the encoding of the locale; [content] is its
    text, which for an ASCII file is the string of its bytes whatever the
    locale. *)

(** What the body of the loop does with one line. *)
Inductive row :=
| Skip                              (* the line is passed over *)
| Row (func : string) (count : Z)   (* [self.data[func] += count] *)
| Bad.                              (* [int(parts[1])] raises *)

Definition parse_line (line : string) : row :=
  if PyStr.has_char PyStr.TAB line then
    let parts := PyStr.split PyStr.TAB (PyStr.strip line) in
    if (2 <=? List.length parts)%nat then
      let func := nth 0 parts EmptyString in
      match PyStr.int (nth 1 parts EmptyString) with
      | Some count => Row func count
      | None => Bad
      end
    else Skip
  else Skip.

Fixpoint parse_lines (lines : list string) (data : Dict.t) : outcome Dict.t :=
  match lines with
  | [] => Done data
  | line :: rest =>
      match parse_line line with
      | Skip => parse_lines rest data
      | Row func count => parse_lines rest (Dict.add func count data)
      | Bad => Exit 1
      end
  end.

Definition _parse_json (content : string) : outcome Dict.t :=
  parse_lines (PyStr.readlines content) Dict.empty.

(** *** [load_data], on the suffix of the file name and what the file holds

    [content] is the bytes of the file: [_parse_svg] decodes them as UTF-8,
    [_parse_json] takes them for the text. *)

Definition load_data (suffix content : string) : outcome Dict.t :=
  if String.eqb suffix ".svg" then _parse_svg content
  else if String.eqb suffix ".json" || String.eqb suffix ".raw"
  then _parse_json content
  else Exit 1.

(** *** [_categorize_function] *)

(** [any(kw in s for kw in kws)] *)
Definition any_in (kws : list string) (s : string) : bool :=
  existsb (fun kw => PyStr.contains kw s) kws.

Definition async_keywords := ["await"; "coroutine"; "async"].
Definition database_keywords := ["sql"; "query"; "mysql"; "select"; "insert"].
Definition cache_keywords := ["redis"; "cache"; "get"; "set"].
Definition http_keywords := ["uvicorn"; "httptools"; "request"].
Definition security_keywords := ["security"; "jwt"; "auth"].
Definition serialization_keywords := ["render"; "template"; "json"].

Definition _categorize_function (func : string) : string :=
  let func_lower := PyStr.lower func in
  if any_in async_keywords func_lower then "async_io"
  else if any_in database_keywords func_lower then "database"
  else if any_in cache_keywords func_lower then "cache"
  else if any_in http_keywords func_lower then "http"
  else if any_in security_keywords func_lower then "security"
  else if any_in serialization_keywords func_lower then "serialization"
  else "other".

(** *** [analyze] *)

(** [sorted(items, key=lambda x: x[1], reverse=True)]: a stable sort, so
    items with equal counts keep the order they have in the dict. *)
Fixpoint insert_desc (x : string * Z) (l : list (string * Z))
  : list (string * Z) :=
  match l with
  | [] => [x]
  | y :: l' => if snd x <? snd y then y :: insert_desc x l' else x :: l
  end.

Definition sorted_desc (l : list (string * Z)) : list (string * Z) :=
  fold_right insert_desc [] l.

Record top_entry := {
  function : string;
  samples : Z;
  percentage : spec_float
}.

Record analysis := {
  total_samples : Z;
  unique_functions : nat;
  top_functions : list top_entry;
  categories : Dict.t
}.

(** [(count / total * 100) if total > 0 else 0] *)
Definition share (count total : Z) : spec_float :=
  if 0 <? total then PyFloat.mul_int (PyFloat.truediv count total) 100
  else PyFloat.zero.

(** One turn of the loop over [sorted_data[:50]]. *)
Definition analyze_step (total : Z) (acc : list top_entry * Dict.t)
  (item : string * Z) : list top_entry * Dict.t :=
  let '(func, count) := item in
  let percentage := share count total in
  let entry := {| function := func; samples := count;
                  percentage := PyFloat.round2 percentage |} in
  let category := _categorize_function func in
  ((fst acc ++ [entry])%list, Dict.add category count (snd acc)).

Definition analyze (data : Dict.t) : analysis :=
  let total := Dict.sum (Dict.values data) in
  let sorted_data := sorted_desc (Dict.items data) in
  let '(tops, cats) :=
    fold_left (analyze_step total) (firstn 50 sorted_data) ([], Dict.empty) in
  {| total_samples := total;
     unique_functions := List.length data;
     top_functions := tops;
     categories := cats |}.

(** *** [_generate_recommendations] *)

Definition insufficient_data : string := "未收集到足够的性能数据".
Definition no_bottleneck : string := "应用性能良好，未发现明显瓶颈".

Definition database_advice (percentage : spec_float) : list string :=
  ["数据库操作占用 " ++ PyFloat.format_1f percentage ++ "% CPU:";
   "   - 检查是否有 N+1 查询问题";
   "   - 考虑添加数据库连接池";
   "   - 优化慢查询，添加必要的索引"].

Definition async_advice (percentage : spec_float) : list string :=
  ["异步操作占用 " ++ PyFloat.format_1f percentage ++ "% CPU:";
   "   - 检查是否有阻塞性操作";
   "   - 考虑使用更高效的异步库"].

Definition cache_advice (percentage : spec_float) : list string :=
  ["缓存操作占用 " ++ PyFloat.format_1f percentage ++ "% CPU:";
   "   - 检查缓存命中率";
   "   - 考虑使用本地缓存减少 Redis 访问"].

Definition recommend_step (total : Z) (recommendations : list string)
  (item : string * Z) : list string :=
  let '(category, count) := item in
  let percentage := share count total in
  if String.eqb category "database" && PyFloat.gt_int percentage 20
  then (recommendations ++ database_advice percentage)%list
  else if String.eqb category "async_io" && PyFloat.gt_int percentage 30
  then (recommendations ++ async_advice percentage)%list
  else if String.eqb category "cache" && PyFloat.gt_int percentage 15
  then (recommendations ++ cache_advice percentage)%list
  else recommendations.

Definition _generate_recommendations (a : analysis) : list string :=
  let total := total_samples a in
  if total =? 0 then [insufficient_data]
  else
    match fold_left (recommend_step total) (Dict.items (categories a)) [] with
    | [] => [no_bottleneck]
    | recommendations => recommendations
    end.

End Report.

(** ** [monitor.py]: locating a listener and stopping a process tree *)

Module Monitor.

(** *** [find_process_by_port] *)

(** One entry of [psutil.net_connections()]: the local address, the
    status and the owning PID, which psutil leaves [None] when it may not
    be read.  (The local address is read only of a connection in the LISTEN
    state, which is bound and has one.) *)
Record addr := { ip : string; port : Z }.
Record sconn := { laddr : addr; status : string; pid : option Z }.

Fixpoint find_process_by_port (connections : list sconn) (p : Z)
  : option Z :=
  match connections with
  | [] => None
  | conn :: rest =>
      if String.eqb (status conn) "LISTEN" && (port (laddr conn) =? p)
      then pid conn
      else find_process_by_port rest p
  end.

(** *** [wait_for_app_start] against a simulated clock

    The clock counts milliseconds.  [net t] is what
    [psutil.net_connections()] returns at time [t]; a call takes no time
    and [time.sleep(0.5)] takes exactly 500 ms.  The result is the value
    returned together with the time of the return. *)

(** [if pid:] holds for an [int] other than [0]. *)
Definition truthy (p : option Z) : bool :=
  match p with
  | Some n => negb (n =? 0)
  | None => false
  end.

Definition poll_interval : Z := 500.

Fixpoint wait_loop (fuel : nat) (net : Z -> list sconn) (p : Z)
  (timeout start_time now : Z) : option (option Z * Z) :=
  match fuel with
  | O => None
  | S fuel' =>
      if now - start_time <? 1000 * timeout then
        let found := find_process_by_port (net now) p in
        if truthy found then Some (found, now)
        else wait_loop fuel' net p timeout start_time (now + poll_interval)
      else Some (None, now)
  end.

(** The loop runs at most [2 * timeout] turns before the clock passes the
    timeout. *)
Definition wait_for_app_start (net : Z -> list sconn) (p timeout now : Z)
  : option (option Z * Z) :=
  wait_loop (S (Z.to_nat (2 * timeout))) net p timeout now now.

(** *** [kill_process_tree]

    The operating system is reached through [psutil] and [os] only; the
    function is embedded over an interface of those calls.  A call takes
    the state of the system and gives back a value or a raised exception,
    and the state afterwards. *)

Inductive exn :=
| NoSuchProcess
| AccessDenied
| TimeoutExpired
| ValueError
| OSError               (* with its subclass [ProcessLookupError] *)
| KeyboardInterrupt     (* not an [Exception] *)
| SystemExit.           (* not an [Exception] *)

(** [except Exception] catches everything but the two [BaseException]s. *)
Definition is_Exception (e : exn) : bool :=
  match e with
  | KeyboardInterrupt | SystemExit => false
  | _ => true
  end.

Inductive result (A : Type) :=
| Ok (a : A)
| Raise (e : exn).
Arguments Ok {A} a.
Arguments Raise {A} e.

Section Effects.

Variable world : Type.

Definition M (A : Type) : Type := world -> result A * world.

Definition ret {A} (a : A) : M A := fun w => (Ok a, w).

Definition bind {A B} (m : M A) (k : A -> M B) : M B :=
  fun w =>
    match m w with
    | (Ok a, w') => k a w'
    | (Raise e, w') => (Raise e, w')
    end.

(** [try: m  except <caught>: handler] *)
Definition try_except {A} (m : M A) (caught : exn -> bool)
  (handler : M A) : M A :=
  fun w =>
    match m w with
    | (Raise e, w') => if caught e then handler w' else (Raise e, w')
    | r => r
    end.

(** [for x in xs: body(x)] *)
Fixpoint for_each {A} (xs : list A) (body : A -> M unit) : M unit :=
  match xs with
  | [] => ret tt
  | x :: rest => bind (body x) (fun _ => for_each rest body)
  end.

(** The calls [kill_process_tree] makes.  A process handle is the PID
    it was made for. *)
Record os := {
  Process : Z -> M Z;                      (* [psutil.Process(pid)] *)
  children : Z -> M (list Z);              (* [p.children(recursive=True)] *)
  terminate : Z -> M unit;                 (* [p.terminate()] *)
  wait_procs : list Z -> M (list Z * list Z);
                                 (* [psutil.wait_procs(ps, timeout=3)] *)
  kill : Z -> M unit;                      (* [p.kill()] *)
  wait : Z -> M unit;                      (* [p.wait(timeout=3)] *)
  taskkill : Z -> M unit;        (* [os.system("taskkill /F /PID ...")] *)
  os_kill : Z -> M unit;                   (* [os.kill(pid, SIGTERM)] *)
  win32 : bool                             (* [sys.platform == "win32"] *)
}.

Variable sys : os.

Definition is_NoSuchProcess (e : exn) : bool :=
  match e with NoSuchProcess => true | _ => false end.

Definition is_OSError (e : exn) : bool :=
  match e with OSError => true | _ => false end.

Definition pass : M unit := ret tt.

Local Notation "x <- m ;; k" := (bind m (fun x => k))
  (at level 61, m at next level, right associativity).
Local Notation "m ;; k" := (bind m (fun _ => k))
  (at level 61, right associativity).

(** The two [except] clauses of the outer [try] are nested here; the first
    handler is [pass], so nothing it raises could reach the second. *)
Definition kill_process_tree (pid : Z) : M unit :=
  try_except
    (try_except
       (parent <- Process sys pid ;;
        children <- children sys parent ;;
        for_each children (fun child =>
          try_except (terminate sys child) is_NoSuchProcess pass) ;;
        gone_alive <- wait_procs sys children ;;
        let '(gone, alive) := gone_alive in
        for_each alive (fun p =>
          try_except (kill sys p) is_NoSuchProcess pass) ;;
        terminate sys parent ;;
        wait sys parent)
       is_NoSuchProcess pass)
    is_Exception
    (try_except
       (if win32 sys then taskkill sys pid else os_kill sys pid)
       is_OSError pass).

End Effects.

Arguments ret {world A} a.
Arguments bind {world A B} m k.
Arguments try_except {world A} m caught handler.
Arguments kill_process_tree {world} sys pid.

(** *** A process table to run [kill_process_tree] on

    Each process has a PID and the PID of its parent.  [terminate] and
    [kill] take the process out of the table at once. *)

Module Table.

Definition world := list (Z * Z).

Definition present (w : world) (pid : Z) : bool :=
  existsb (fun pr => fst pr =? pid) w.

Definition remove (pid : Z) (w : world) : world :=
  filter (fun pr => negb (fst pr =? pid)) w.

Definition child_pids (pid : Z) (w : world) : list Z :=
  map fst (filter (fun pr => snd pr =? pid) w).

Fixpoint descendants (fuel : nat) (pid : Z) (w : world) : list Z :=
  match fuel with
  | O => []
  | S fuel' =>
      flat_map (fun c => c :: descendants fuel' c w) (child_pids pid w)
  end.

Definition signal (pid : Z) : M world unit :=
  fun w =>
    if present w pid then (Ok tt, remove pid w)
    else (Raise NoSuchProcess, w).

Definition sys : os world := {|
  Process := fun pid w =>
    if pid <? 0 then (Raise ValueError, w)
    else if present w pid then (Ok pid, w)
    else (Raise NoSuchProcess, w);
  children := fun pid w =>
    if present w pid then (Ok (descendants (List.length w) pid w), w)
    else (Raise NoSuchProcess, w);
  terminate := signal;
  wait_procs := fun ps w =>
    (Ok (filter (fun p => negb (present w p)) ps, filter (present w) ps), w);
  kill := signal;
  wait := fun pid w =>
    if present w pid then (Raise TimeoutExpired, w) else (Ok tt, w);
  taskkill := fun pid w => (Ok tt, remove pid w);
  os_kill := fun pid w =>
    if present w pid then (Ok tt, remove pid w) else (Raise OSError, w);
  win32 := false
|}.

End Table.

End Monitor.

(** ** Vocabulary of the properties *)

Module Spec.

Import Report.

(** [sub] occurs in [s]. *)
Definition occurs_in (sub s : string) : Prop :=
  exists before after, s = before ++ sub ++ after.

(** A frame name contains a keyword of a list, case ignored. *)
Definition mentions (kws : list string) (func : string) : Prop :=
  exists kw, In kw kws /\ occurs_in kw (PyStr.lower func).

(** The taxonomy as the design document gives it: the categories in
    priority order, the first whose vocabulary matches wins, [other]
    when none does. *)
Definition taxonomy : list (string * list string) :=
  [("async_io", async_keywords);
   ("database", database_keywords);
   ("cache", cache_keywords);
   ("http", http_keywords);
   ("security", security_keywords);
   ("serialization", serialization_keywords)].

Fixpoint first_match (rules : list (string * list string)) (s : string)
  : string :=
  match rules with
  | [] => "other"
  | (category, kws) :: rest =>
      if any_in kws s then category else first_match rest s
  end.

(** The frames the loop of [_parse_json] adds, in the order of the lines. *)
Fixpoint rows (lines : list string) : list (string * Z) :=
  match lines with
  | [] => []
  | line :: rest =>
      match parse_line line with
      | Row func count => (func, count) :: rows rest
      | _ => rows rest
      end
  end.

(** The frames [_parse_svg] adds, in the order of the matches. *)
Definition svg_rows (content : string) : list (string * Z) :=
  map (fun m => (PyStr.strip m, 1)) (matches content).

(** The frequency table after the frames [frames] were added one by one. *)
Definition add_frame (d : Dict.t) (fr : string * Z) : Dict.t :=
  Dict.add (fst fr) (snd fr) d.

Definition ingest (frames : list (string * Z)) : Dict.t :=
  fold_left add_frame frames Dict.empty.

(** Sum of a list of counts. *)
Definition total (counts : list Z) : Z := fold_right Z.add 0 counts.

(** Samples of the frames of [frames] that fall into [category]. *)
Definition category_samples (category : string) (frames : list (string * Z))
  : Z :=
  total (map snd
    (filter (fun fr => String.eqb (_categorize_function (fst fr)) category)
       frames)).

(** The names of [names] that are not in [seen], each once, in the order
    of their first occurrence: the order of the keys of a dict that
    already holds [seen] and is then given [names]. *)
Fixpoint fresh (seen names : list string) : list string :=
  match names with
  | [] => []
  | n :: rest =>
      if in_dec string_dec n seen then fresh seen rest
      else n :: fresh (seen ++ [n]) rest
  end.

(** [x] stands somewhere before [y] in [l]. *)
Definition precedes {A : Type} (x y : A) (l : list A) : Prop :=
  exists l1 l2 l3, l = (l1 ++ x :: l2 ++ y :: l3)%list.

(** A line the loop of [_parse_json] gets past. *)
Definition accepted (line : string) : Prop := parse_line line <> Bad.

(** Position of the first occurrence of [x] in [l]. *)
Fixpoint index_of (x : string) (l : list string) : option nat :=
  match l with
  | [] => None
  | y :: l' =>
      if String.eqb x y then Some O else option_map S (index_of x l')
  end.

(** The frames of the ranking, as (name, samples) pairs. *)
Definition ranking (a : analysis) : list (string * Z) :=
  map (fun e => (function e, samples e)) (top_functions a).

(** [n] copies of a character. *)
Fixpoint replicate (n : nat) (c : ascii) : string :=
  match n with
  | O => EmptyString
  | S n' => String c (replicate n' c)
  end.

Definition tab_line (func count : string) : string :=
  func ++ String PyStr.TAB count ++ PyStr.NL.

(** The artifact of the design document's scenario. *)
Definition scenario : string :=
  "handle_request" ++ String PyStr.TAB "50" ++ PyStr.NL ++
  "run_query" ++ String PyStr.TAB "30" ++ PyStr.NL ++
  "await_io" ++ String PyStr.TAB "20".

(** An artifact of 51 frames: [x], [xx], ... up to fifty letters with 2
    samples each, then [run_query] with 1 sample. *)
Definition crowded : string :=
  concat "" (map (fun n => tab_line (replicate n "x") "2") (seq 1 50))
  ++ tab_line "run_query" "1".

(** Some connection of [connections] is in the LISTEN state on port [p]. *)
Definition listens (p : Z) (connections : list Monitor.sconn) : Prop :=
  exists conn, In conn connections /\
    Monitor.status conn = "LISTEN" /\ Monitor.port (Monitor.laddr conn) = p.

(** A listener with PID [owner] on port [p] from time [since] on, and
    nothing before. *)
Definition listener (p owner : Z) : Monitor.sconn :=
  {| Monitor.laddr := {| Monitor.ip := "0.0.0.0"; Monitor.port := p |};
     Monitor.status := "LISTEN";
     Monitor.pid := Some owner |}.

Definition appears_at (since p owner : Z) (t : Z) : list Monitor.sconn :=
  if t <? since then [] else [listener p owner].

End Spec.

(** ** String formatting, as the text report uses it *)

Module PyFormat.

(** [c * n] for a one-character string *)
Fixpoint times (n : nat) (c : ascii) : string :=
  match n with
  | O => EmptyString
  | S n' => String c (times n' c)
  end.

(** [s[:n]] *)
Fixpoint take (n : nat) (s : string) : string :=
  match n, s with
  | S n', String c s' => String c (take n' s')
  | _, _ => EmptyString
  end.

(** Padding with blanks up to [width]; a longer text is left as it is. *)
Definition ljust (width : nat) (s : string) : string :=
  s ++ times (width - String.length s) " ".

Definition rjust (width : nat) (s : string) : string :=
  times (width - String.length s) " " ++ s.

(** [str(z)] for an [int] *)
Definition str (z : Z) : string := PyFloat.decimal z.

(** [f"{s:15s}"]: text is set to the left *)
Definition format_s (width : nat) (s : string) : string := ljust width s.

(** [f"{z:8d}"]: numbers are set to the right *)
Definition format_d (width : nat) (z : Z) : string := rjust width (str z).

(** [f"{x:5.1f}"] *)
Definition format_f1 (width : nat) (x : spec_float) : string :=
  rjust width (PyFloat.format_1f x).

End PyFormat.

(** ** [generate_text_report] *)

Module Render.

Import Report.



(** [f"{i:2d}. {func_data['function'][:40]:40s} "
     f"{func_data['samples']:8d} ({func_data['percentage']:5.1f}%)"] *)
Definition function_line (numbered : Z * top_entry) : string :=
  let '(i, func_data) := numbered in
  PyFormat.format_d 2 i ++ ". "
  ++ PyFormat.format_s 40 (PyFormat.take 40 (function func_data)) ++ " "
  ++ PyFormat.format_d 8 (samples func_data)
  ++ " (" ++ PyFormat.format_f1 5 (percentage func_data) ++ "%)".

(** [enumerate(l, start)] *)
Fixpoint enumerate {A : Type} (start : Z) (l : list A) : list (Z * A) :=
  match l with
  | [] => []
  | x :: rest => (start, x) :: enumerate (start + 1) rest
  end.


Definition counts (a : analysis) : list string :=
  ["总采样数: " ++ PyFormat.str (total_samples a);
   "唯一函数数: " ++ PyFormat.str (Z.of_nat (unique_functions a))].



End Render.

(** ** [find_uvicorn_processes] *)

Module Discovery.

(** What [psutil.process_iter(["pid", "name", "cmdline"])] hands over for
    one process: [proc.info].  A value psutil could not read is [None]. *)
Record proc_info := {
  info_pid : Z;
  info_name : option string;
  info_cmdline : option (list string)
}.

(** One entry of the result. *)
Record found := { pid : Z; name : option string; cmdline : string }.

(** The loop over the processes, with the list [processes] built so far.
    [if cmdline and ...] passes over a command line that is [None] or
    empty. *)
Fixpoint scan (process_iter : list proc_info) (processes : list found)
  : list found :=
  match process_iter with
  | [] => processes
  | proc :: rest =>
      match info_cmdline proc with
      | Some ((_ :: _) as cmdline) =>
          if PyStr.contains "uvicorn" (String.concat " " cmdline)
          then scan rest
                 (processes ++ [{| pid := info_pid proc;
                                   name := info_name proc;
                                   cmdline := String.concat " " cmdline |}])
          else scan rest processes
      | _ => scan rest processes
      end
  end.

Definition find_uvicorn_processes (process_iter : list proc_info)
  : list found :=
  scan process_iter [].

End Discovery.

(** ** The sampler driver of [monitor.py]

    [run_py_spy], [monitor_top], [record_profile], [dump_stack] and
    [signal_handler] over an interface of the [subprocess] calls and of the
    registry [global_processes].  What the functions print is left out. *)

Module Driver.

Import Monitor.

Section Host.

Variable world : Type.

(** A [Popen] object is the number it was given when it was started. *)
Record host := {
  host_os : os world;
  Popen : list string -> M world Z;     (* [subprocess.Popen(cmd, ...)] *)
  proc_wait : Z -> M world unit;        (* [proc.wait()] *)
  proc_terminate : Z -> M world unit;   (* [proc.terminate()] *)
  proc_kill : Z -> M world unit;        (* [proc.kill()] *)
  append : Z -> M world unit;           (* [global_processes.append(proc)] *)
  global_processes : M world (list Z)   (* reading [global_processes] *)
}.

Variable h : host.

Local Notation "x <- m ;; k" := (bind m (fun x => k))
  (at level 61, m at next level, right associativity).
Local Notation "m ;; k" := (bind m (fun _ => k))
  (at level 61, right associativity).

Definition raise {A : Type} (e : exn) : M world A := fun w => (Raise e, w).

Definition is_KeyboardInterrupt (e : exn) : bool :=
  match e with KeyboardInterrupt => true | _ => false end.

(** Both branches on the platform start the same command. *)
Definition run_py_spy (args : list string) : M world Z :=
  let cmd := ("py-spy" :: args)%list in
  proc <- Popen h cmd ;;
  append h proc ;;
  ret proc.

(** [cmd.extend(["--duration", str(duration)])] under [if duration:] *)
Definition with_duration (cmd : list string) (duration : option Z)
  : list string :=
  if truthy duration
  then (cmd ++ ["--duration";
                PyFormat.str (match duration with Some d => d | None => 0 end)])
         %list
  else cmd.

(** The handler of [except KeyboardInterrupt] in both monitoring modes. *)
Definition stop (pid proc : Z) : M world unit :=
  kill_process_tree (host_os h) pid ;;
  proc_terminate h proc ;;
  proc_wait h proc.

Definition monitor_top (pid : Z) (duration : option Z) : M world unit :=
  let cmd := with_duration ["top"; "--pid"; PyFormat.str pid] duration in
  proc <- run_py_spy cmd ;;
  try_except (proc_wait h proc) is_KeyboardInterrupt (stop pid proc).

Definition record_profile (pid : Z) (output : string) (duration : option Z)
  (rate : Z) : M world unit :=
  let cmd := with_duration
               ["record"; "-o"; output; "--rate"; PyFormat.str rate;
                "--pid"; PyFormat.str pid] duration in
  proc <- run_py_spy cmd ;;
  try_except (proc_wait h proc) is_KeyboardInterrupt (stop pid proc).

Definition dump_stack (pid : Z) : M world unit :=
  proc <- run_py_spy ["dump"; "--pid"; PyFormat.str pid] ;;
  proc_wait h proc.

(** [signal_handler]; [sys.exit(0)] raises [SystemExit]. *)
Definition signal_handler : M world unit :=
  procs <- global_processes h ;;
  for_each world procs (fun proc =>
    try_except
      (if win32 world (host_os h) then proc_kill h proc
       else proc_terminate h proc)
      is_OSError (pass world)) ;;
  raise SystemExit.

End Host.

Arguments run_py_spy {world} h args.
Arguments monitor_top {world} h pid duration.
Arguments record_profile {world} h pid output duration rate.
Arguments dump_stack {world} h pid.
Arguments signal_handler {world} h.
Arguments stop {world} h pid proc.

End Driver.

(** ** A recording host

    Every call is written to a log and answered from a script, so that the
    order of the calls of a function can be read off. *)

Module Recording.

Import Monitor.

Inductive call :=
| CallProcess (pid : Z)
| CallChildren (pid : Z)
| CallTerminate (pid : Z)
| CallWaitProcs (pids : list Z)
| CallKill (pid : Z)
| CallWait (pid : Z)
| CallTaskkill (pid : Z)
| CallOsKill (pid : Z)
| CallPopen (cmd : list string)
| CallProcWait (proc : Z)
| CallProcTerminate (proc : Z)
| CallProcKill (proc : Z)
| CallAppend (proc : Z).

(** The answers of the system: the descendants a process has, those of them
    that outlive [terminate], and what each call raises, if anything. *)
Record script := {
  descendants : list Z;
  survivors : list Z;
  on_process : Z -> option exn;
  on_terminate : Z -> option exn;
  on_wait : Z -> option exn;
  on_os_kill : Z -> option exn;
  on_proc_signal : Z -> option exn;
  interrupted : bool;       (* Ctrl-C arrives during the first [proc.wait()] *)
  is_win32 : bool
}.

Definition world := list call.

Definition answer {A : Type} (c : call) (e : option exn) (a : A)
  : M world A :=
  fun w =>
    match e with
    | Some x => (Raise x, (w ++ [c])%list)
    | None => (Ok a, (w ++ [c])%list)
    end.

Definition is_proc_wait (c : call) : bool :=
  match c with CallProcWait _ => true | _ => false end.

Definition popen_count (w : world) : Z :=
  Z.of_nat (List.length
              (filter (fun c => match c with CallPopen _ => true | _ => false end)
                 w)).

Fixpoint appended (w : world) : list Z :=
  match w with
  | [] => []
  | CallAppend proc :: rest => proc :: appended rest
  | _ :: rest => appended rest
  end.

Definition sys (s : script) : os world := {|
  Process := fun pid => answer (CallProcess pid) (on_process s pid) pid;
  children := fun pid => answer (CallChildren pid) None (descendants s);
  terminate := fun pid => answer (CallTerminate pid) (on_terminate s pid) tt;
  wait_procs := fun pids =>
    answer (CallWaitProcs pids) None
      (filter (fun p => negb (existsb (Z.eqb p) (survivors s))) pids,
       survivors s);
  kill := fun pid => answer (CallKill pid) None tt;
  wait := fun pid => answer (CallWait pid) (on_wait s pid) tt;
  taskkill := fun pid => answer (CallTaskkill pid) None tt;
  os_kill := fun pid => answer (CallOsKill pid) (on_os_kill s pid) tt;
  win32 := is_win32 s
|}.

Definition machine (s : script) : Driver.host world := {|
  Driver.host_os := sys s;
  Driver.Popen := fun cmd w =>
    (Ok (popen_count w + 1), (w ++ [CallPopen cmd])%list);
  Driver.proc_wait := fun proc w =>
    if interrupted s && negb (existsb is_proc_wait w)
    then (Raise KeyboardInterrupt, (w ++ [CallProcWait proc])%list)
    else (Ok tt, (w ++ [CallProcWait proc])%list);
  Driver.proc_terminate := fun proc =>
    answer (CallProcTerminate proc) (on_proc_signal s proc) tt;
  Driver.proc_kill := fun proc =>
    answer (CallProcKill proc) (on_proc_signal s proc) tt;
  Driver.append := fun proc => answer (CallAppend proc) None tt;
  Driver.global_processes := fun w => (Ok (appended w), w)
|}.

(** The calls of [kill_process_tree] up to and including
    [parent.terminate()], when none of them fails. *)
Definition sweep (s : script) (pid : Z) : list call :=
  ([CallProcess pid; CallChildren pid] ++ map CallTerminate (descendants s)
   ++ [CallWaitProcs (descendants s)] ++ map CallKill (survivors s)
   ++ [CallTerminate pid])%list.

(** The last resort of [kill_process_tree]. *)
Definition last_resort (s : script) (pid : Z) : call :=
  if is_win32 s then CallTaskkill pid else CallOsKill pid.

(** The signal [signal_handler] sends to a sampler. *)
Definition stop_signal (s : script) (proc : Z) : call :=
  if is_win32 s then CallProcKill proc else CallProcTerminate proc.

(** The [--duration] arguments of a sampler: none for no duration and for a
    duration of 0. *)
Definition duration_args (duration : option Z) : list string :=
  match duration with
  | Some d => if d =? 0 then [] else ["--duration"; PyFormat.str d]
  | None => []
  end.

(** A system in which nothing goes wrong. *)
Definition calm (kids alive : list Z) : script := {|
  descendants := kids;
  survivors := alive;
  on_process := fun _ => None;
  on_terminate := fun _ => None;
  on_wait := fun _ => None;
  on_os_kill := fun _ => None;
  on_proc_signal := fun _ => None;
  interrupted := false;
  is_win32 := false
|}.

(** A process that outlives [terminate], on a system where [os.kill] fails. *)
Definition stubborn (kids : list Z) : script := {|
  descendants := kids;
  survivors := [];
  on_process := fun _ => None;
  on_terminate := fun _ => None;
  on_wait := fun _ => Some TimeoutExpired;
  on_os_kill := fun _ => Some OSError;
  on_proc_signal := fun _ => None;
  interrupted := false;
  is_win32 := false
|}.

(** Ctrl-C while [kill_process_tree] waits for the process. *)
Definition breaking (kids : list Z) : script := {|
  descendants := kids;
  survivors := [];
  on_process := fun _ => None;
  on_terminate := fun _ => None;
  on_wait := fun _ => Some KeyboardInterrupt;
  on_os_kill := fun _ => Some OSError;
  on_proc_signal := fun _ => None;
  interrupted := false;
  is_win32 := false
|}.

(** A system that refuses to signal the process [denied]. *)
Definition refusing (kids : list Z) (denied : Z) : script := {|
  descendants := kids;
  survivors := [];
  on_process := fun _ => None;
  on_terminate := fun c => if c =? denied then Some AccessDenied else None;
  on_wait := fun _ => None;
  on_os_kill := fun _ => None;
  on_proc_signal := fun _ => None;
  interrupted := false;
  is_win32 := false
|}.

(** Ctrl-C while the sampler is waited for, on a system where nothing else
    goes wrong. *)
Definition interrupting (kids alive : list Z) : script := {|
  descendants := kids;
  survivors := alive;
  on_process := fun _ => None;
  on_terminate := fun _ => None;
  on_wait := fun _ => None;
  on_os_kill := fun _ => None;
  on_proc_signal := fun _ => None;
  interrupted := true;
  is_win32 := false
|}.

End Recording.

(** ** Further vocabulary *)

Module Terms.

Import Report.

(** The seven labels [_categorize_function] can give. *)
Definition labels : list string :=
  ["async_io"; "database"; "cache"; "http"; "security"; "serialization";
   "other"].

(** The frames of [frames] that bear the name [name]. *)
Definition named (name : string) (frames : list (string * Z))
  : list (string * Z) :=
  filter (fun fr => String.eqb (fst fr) name) frames.

(** A frame of the ranking under the label of its category. *)
Definition relabel (fr : string * Z) : string * Z :=
  (_categorize_function (fst fr), snd fr).

(** The advice [_generate_recommendations] gives for one category. *)
Definition advice (total : Z) (item : string * Z) : list string :=
  let percentage := share (snd item) total in
  if String.eqb (fst item) "database" && PyFloat.gt_int percentage 20
  then database_advice percentage
  else if String.eqb (fst item) "async_io" && PyFloat.gt_int percentage 30
  then async_advice percentage
  else if String.eqb (fst item) "cache" && PyFloat.gt_int percentage 15
  then cache_advice percentage
  else [].

(** The share of a category is over its threshold. *)
Definition over_threshold (total : Z) (item : string * Z) : bool :=
  let percentage := share (snd item) total in
  String.eqb (fst item) "database" && PyFloat.gt_int percentage 20
  || String.eqb (fst item) "async_io" && PyFloat.gt_int percentage 30
  || String.eqb (fst item) "cache" && PyFloat.gt_int percentage 15.

(** A connection is in the LISTEN state on port [p]. *)
Definition listening (p : Z) (conn : Monitor.sconn) : bool :=
  String.eqb (Monitor.status conn) "LISTEN"
  && (Monitor.port (Monitor.laddr conn) =? p).

(** A process whose command line could be read and has an argument that
    contains [uvicorn]. *)
Definition runs_uvicorn (proc : Discovery.proc_info) : Prop :=
  exists args arg,
    Discovery.info_cmdline proc = Some args /\ In arg args /\
    Spec.occurs_in "uvicorn" arg.

(** The test of the loop of [find_uvicorn_processes]. *)
Definition listed (proc : Discovery.proc_info) : bool :=
  match Discovery.info_cmdline proc with
  | Some ((_ :: _) as cmdline) =>
      PyStr.contains "uvicorn" (String.concat " " cmdline)
  | _ => false
  end.

(** The entry [find_uvicorn_processes] makes for a process. *)
Definition entry (proc : Discovery.proc_info) : Discovery.found :=
  {| Discovery.pid := Discovery.info_pid proc;
     Discovery.name := Discovery.info_name proc;
     Discovery.cmdline :=
       String.concat " "
         (match Discovery.info_cmdline proc with
          | Some args => args
          | None => []
          end) |}.

(** The lines of the text report that rank the functions. *)
Definition function_lines (a : analysis) : list string :=
  map Render.function_line
    (Render.enumerate 1 (firstn 20 (top_functions a))).

(** Every character of [s] passes [f]. *)
Fixpoint all_chars (f : ascii -> bool) (s : string) : bool :=
  match s with
  | EmptyString => true
  | String c s' => f c && all_chars f s'
  end.

(** A title fragment of a flame graph: the attributes of the group, blank
    space, the text before the parenthesis, the number of samples, blank
    space, and what follows the word [samples]. *)
Definition title_fragment (attrs blank text number blank' tail : string)
  : string :=
  "<g" ++ attrs ++ ">" ++ blank ++ "<title>" ++ text ++ "(" ++ number
  ++ blank' ++ "samples" ++ tail ++ "</title>".

(** Neither a tag opens nor a parenthesis. *)
Definition plain (c : ascii) : bool :=
  Re.not_char "<" c && Re.not_char "(" c.

(** What stands between the parenthesis and the closing tag of a title. *)
Definition inner (number blank' tail : string) : string :=
  number ++ blank' ++ "samples" ++ tail.

(** [l1] is [l2] with some elements left out. *)
Inductive sublist {A : Type} : list A -> list A -> Prop :=
| sublist_nil : sublist [] []
| sublist_skip x l1 l2 : sublist l1 l2 -> sublist l1 (x :: l2)
| sublist_keep x l1 l2 : sublist l1 l2 -> sublist (x :: l1) (x :: l2).

(** A character of ASCII other than the carriage return, which a file
    opened in text mode would turn into a line feed. *)
Definition ordinary (c : ascii) : bool :=
  PyStr.is_ascii c && Re.not_char PyStr.CR c.

(** A line of a tab-delimited artifact whose count [int] rejects: the line
    has a tab and, once stripped, a second field that is no decimal
    literal. *)
Definition bad_count (line : string) : Prop :=
  PyStr.has_char PyStr.TAB line = true /\
  exists func field rest,
    PyStr.split PyStr.TAB (PyStr.strip line) = func :: field :: rest /\
    PyStr.int field = None.

(** The parts of a title fragment
    [<g ATTRS>BLANK<title>TEXT(NUMBER BLANK samples TAIL</title>]. *)
Record fragment := {
  fr_attrs : string;
  fr_blank : string;
  fr_text : string;
  fr_number : string;
  fr_gap : string;
  fr_tail : string
}.

Definition render (f : fragment) : string :=
  title_fragment (fr_attrs f) (fr_blank f) (fr_text f) (fr_number f)
    (fr_gap f) (fr_tail f).

(** The number of samples of a title: one decimal digit or more. *)
Definition sample_number (n : string) : bool :=
  all_chars PyStr.is_digit n && negb (String.eqb n "").

(** The parts are what their places in the pattern of [_parse_svg] admit;
    the text is not empty, and after the number no tag and no parenthesis
    opens before the title closes. *)
Definition well_formed (f : fragment) : bool :=
  all_chars (Re.not_char ">") (fr_attrs f)
  && all_chars PyStr.is_space (fr_blank f)
  && all_chars (Re.not_char "<") (fr_text f)
  && negb (String.eqb (fr_text f) "")
  && sample_number (fr_number f)
  && all_chars PyStr.is_space (fr_gap f)
  && all_chars plain (fr_tail f).

(** No group opens in [s]. *)
Definition quiet (s : string) : bool := negb (PyStr.contains "<g" s).

(** A flame graph: text in which no group opens, then title fragments, each
    followed by such text (the shapes and labels of the frame, the closing
    tags). *)
Fixpoint flame_graph (head : string) (body : list (fragment * string))
  : string :=
  match body with
  | [] => head
  | (f, between) :: rest => head ++ render f ++ flame_graph between rest
  end.

Definition well_formed_graph (head : string) (body : list (fragment * string))
  : bool :=
  quiet head && forallb (fun p => well_formed (fst p) && quiet (snd p)) body.

(** The same flame graph with other numbers of samples in its titles. *)
Definition with_number (n : string) (f : fragment) : fragment :=
  {| fr_attrs := fr_attrs f; fr_blank := fr_blank f; fr_text := fr_text f;
     fr_number := n; fr_gap := fr_gap f; fr_tail := fr_tail f |}.

Fixpoint renumber (numbers : list string) (body : list (fragment * string))
  : list (fragment * string) :=
  match numbers, body with
  | n :: numbers', (f, between) :: rest =>
      (with_number n f, between) :: renumber numbers' rest
  | _, _ => body
  end.

(** The frame names of the fragments of a flame graph. *)
Definition frame_names (body : list (fragment * string)) : list string :=
  map (fun p => PyStr.strip (fr_text (fst p))) body.







End Terms.

(** * Properties *)

Import Report Spec.

(** ** Strings *)

Section StringFacts.

Lemma prefix_split (sub s : string) :
  String.prefix sub s = true <-> exists rest, s = sub ++ rest.
Proof.
  revert s; induction sub as [|a sub IH]; intros s; simpl.
  - split; [intros _; now exists s | now destruct s].
  - destruct s as [|b s].
    + simpl. split; [discriminate | intros [rest H]; discriminate].
    + simpl. destruct (Ascii.ascii_dec a b) as [->|Hab].
      * rewrite IH. split; intros [rest H]; exists rest.
        -- now rewrite H.
        -- now injection H.
      * split; [discriminate | intros [rest H]; injection H; congruence].
Qed.

Lemma contains_unfold (sub s : string) :
  PyStr.contains sub s =
  if String.prefix sub s then true
  else match s with
       | EmptyString => false
       | String _ s' => PyStr.contains sub s'
       end.
Proof. now destruct s. Qed.

Lemma contains_occurs (sub s : string) :
  PyStr.contains sub s = true <-> occurs_in sub s.
Proof.
  unfold occurs_in. induction s as [|c s IH]; rewrite contains_unfold.
  - destruct (String.prefix sub "") eqn:E.
    + apply prefix_split in E as [rest E].
      split; [intros _; now exists "", rest | reflexivity].
    + split; [discriminate|].
      intros (before & after & H).
      destruct before; [|discriminate].
      assert (String.prefix sub "" = true) by (apply prefix_split; eauto).
      congruence.
  - destruct (String.prefix sub (String c s)) eqn:E.
    + apply prefix_split in E as [rest E].
      split; [intros _; now exists "", rest | reflexivity].
    + rewrite IH. split.
      * intros (before & after & ->). now exists (String c before), after.
      * intros (before & after & H). destruct before as [|b before].
        -- assert (String.prefix sub (String c s) = true)
             by (apply prefix_split; eauto).
           congruence.
        -- injection H as _ ->. eauto.
Qed.

Lemma any_in_mentions (kws : list string) (func : string) :
  any_in kws (PyStr.lower func) = true <-> mentions kws func.
Proof.
  unfold any_in, mentions. rewrite existsb_exists.
  split; intros (kw & Hin & H); exists kw; split; auto;
    now apply contains_occurs.
Qed.

End StringFacts.

(** ** Classification *)

(** C6.  [_categorize_function] looks at the lower-cased frame name only and
    follows the priority order of the taxonomy; hence a name that mentions
    an async keyword and a database keyword is classified [async_io]. *)
Theorem categorize_priority (func : string) :
  _categorize_function func = first_match taxonomy (PyStr.lower func) /\
  (mentions async_keywords func -> mentions database_keywords func ->
   _categorize_function func = "async_io").
Proof.
  split; [reflexivity|].
  intros Ha _. apply any_in_mentions in Ha.
  unfold _categorize_function. now rewrite Ha.
Qed.

Lemma categorize_priority_witness :
  mentions async_keywords "Async_Query_Runner" /\
  mentions database_keywords "Async_Query_Runner" /\
  _categorize_function "Async_Query_Runner" = "async_io".
Proof.
  assert (Ha : mentions async_keywords "Async_Query_Runner").
  { exists "async". split; [simpl; auto|]. now exists "", "_query_runner". }
  assert (Hd : mentions database_keywords "Async_Query_Runner").
  { exists "query". split; [simpl; auto|]. now exists "async_", "_runner". }
  exact (conj Ha (conj Hd
           (proj2 (categorize_priority "Async_Query_Runner") Ha Hd))).
Defined.

(** ** Recommendations *)

(** C7.  With no samples at all the only recommendation is the
    "insufficient data" line; no threshold is looked at. *)
Theorem no_samples_insufficient_data (a : analysis) :
  total_samples a = 0 -> _generate_recommendations a = [insufficient_data].
Proof.
  intros H. unfold _generate_recommendations. now rewrite H.
Qed.

Lemma no_samples_insufficient_data_witness :
  total_samples (analyze [("run_query", 0)]) = 0 /\
  _generate_recommendations (analyze [("run_query", 0)]) = [insufficient_data].
Proof.
  split; [reflexivity|].
  apply (no_samples_insufficient_data (analyze [("run_query", 0)])).
  reflexivity.
Defined.

(** ** The scenario of the design document *)

(** C2, as stated, fails: [handle_request] contains the http keyword
    [request], so its 50 samples go to [http] and [other] stays empty. *)
Lemma scenario_handle_request_not_other :
  _parse_json scenario =
    Done [("handle_request", 50); ("run_query", 30); ("await_io", 20)] /\
  _categorize_function "handle_request" <> "other" /\
  Dict.get "other"
    (categories (analyze
       [("handle_request", 50); ("run_query", 30); ("await_io", 20)])) <> 50.
Proof.
  split; [reflexivity|]. split; [discriminate|]. vm_compute. discriminate.
Qed.

(** C2, amended.  The scenario gives 100 samples; [run_query] is database
    (30), [await_io] is async_io (20) and [handle_request] is http (50).
    The recommendations are the database advice alone: 30% is above 20%,
    while the 20% of async_io is not above 30%. *)
Theorem scenario_analysis :
  exists data,
    _parse_json scenario = Done data /\
    total_samples (analyze data) = 100 /\
    _categorize_function "run_query" = "database" /\
    _categorize_function "await_io" = "async_io" /\
    _categorize_function "handle_request" = "http" /\
    categories (analyze data) =
      [("http", 50); ("database", 30); ("async_io", 20)] /\
    PyFloat.gt_int (share 30 100) 20 = true /\
    PyFloat.gt_int (share 20 100) 30 = false /\
    _generate_recommendations (analyze data) = database_advice (share 30 100) /\
    database_advice (share 30 100) =
      ["数据库操作占用 30.0% CPU:";
       "   - 检查是否有 N+1 查询问题";
       "   - 考虑添加数据库连接池";
       "   - 优化慢查询，添加必要的索引"] /\
    forall line, In line (async_advice (share 20 100)) ->
                 ~ In line (_generate_recommendations (analyze data)).
Proof.
  exists [("handle_request", 50); ("run_query", 30); ("await_io", 20)].
  repeat (split; [vm_compute; reflexivity|]).
  intros line Hin Hrec.
  vm_compute in Hin, Hrec.
  repeat (destruct Hin as [<-|Hin];
          [repeat (destruct Hrec as [Hrec|Hrec]; [discriminate Hrec|]);
           exact Hrec|]).
  exact Hin.
Qed.

(** ** The frequency table *)

Section DictFacts.

Lemma get_add (k k' : string) (v : Z) (d : Dict.t) :
  Dict.get k (Dict.add k' v d) =
  if String.eqb k k' then Dict.get k d + v else Dict.get k d.
Proof.
  induction d as [|[k0 v0] d IH]; simpl.
  - destruct (String.eqb k k'); reflexivity.
  - destruct (String.eqb_spec k' k0) as [->|Hk0]; simpl.
    + destruct (String.eqb k k0); reflexivity.
    + destruct (String.eqb_spec k k0) as [->|Hk].
      * destruct (String.eqb_spec k0 k'); congruence.
      * exact IH.
Qed.

Lemma keys_add (k : string) (v : Z) (d : Dict.t) :
  Dict.keys (Dict.add k v d) =
  if in_dec string_dec k (Dict.keys d) then Dict.keys d
  else (Dict.keys d ++ [k])%list.
Proof.
  unfold Dict.keys. induction d as [|[k0 v0] d IH]; simpl; [reflexivity|].
  destruct (String.eqb_spec k k0) as [->|Hk]; simpl.
  - destruct (string_dec k0 k0); [reflexivity|congruence].
  - rewrite IH. destruct (string_dec k0 k) as [E|E]; [congruence|].
    now destruct (in_dec string_dec k (map fst d)).
Qed.

Lemma sum_shift (l : list Z) (a : Z) :
  fold_left Z.add l a = a + Spec.total l.
Proof.
  revert a; induction l as [|x l IH]; intros a; simpl; [lia|].
  rewrite IH. lia.
Qed.

Lemma sum_total (l : list Z) : Dict.sum l = Spec.total l.
Proof. unfold Dict.sum. now rewrite sum_shift. Qed.

Lemma total_values_add (k : string) (v : Z) (d : Dict.t) :
  Spec.total (Dict.values (Dict.add k v d)) = Spec.total (Dict.values d) + v.
Proof.
  unfold Dict.values.
  induction d as [|[k0 v0] d IH]; simpl; [lia|].
  destruct (String.eqb k k0); simpl; lia.
Qed.

Lemma get_absent (k : string) (d : Dict.t) :
  ~ In k (Dict.keys d) -> Dict.get k d = 0.
Proof.
  induction d as [|[k0 v0] d IH]; simpl; [reflexivity|].
  intros H. destruct (String.eqb_spec k k0) as [->|_]; [tauto|].
  apply IH; tauto.
Qed.

Lemma get_in (k : string) (v : Z) (d : Dict.t) :
  NoDup (Dict.keys d) -> In (k, v) d -> Dict.get k d = v.
Proof.
  induction d as [|[k0 v0] d IH]; simpl; [tauto|].
  intros Hnd [H|H].
  - injection H as <- <-. now rewrite String.eqb_refl.
  - inversion Hnd as [|? ? Hnot Hnd']; subst.
    destruct (String.eqb_spec k k0) as [->|_].
    + exfalso. apply Hnot. now apply (in_map fst) in H.
    + now apply IH.
Qed.

End DictFacts.

(** ** Reading the tab-delimited table *)

Section ParseFacts.

Lemma parse_lines_app (l1 l2 : list string) (data : Dict.t) :
  parse_lines (l1 ++ l2) data =
  match parse_lines l1 data with
  | Done d => parse_lines l2 d
  | Exit status => Exit status
  end.
Proof.
  revert data; induction l1 as [|line l1 IH]; intros data; simpl;
    [reflexivity|].
  destruct (parse_line line); auto.
Qed.

Lemma parse_lines_exit (lines : list string) (data : Dict.t) (status : Z) :
  parse_lines lines data = Exit status -> status = 1.
Proof.
  revert data; induction lines as [|line lines IH]; intros data; simpl;
    [discriminate|].
  destruct (parse_line line); eauto. now intros [= <-].
Qed.

Lemma parse_lines_skip (before after : list string) (line : string)
  (data : Dict.t) :
  parse_line line = Skip ->
  parse_lines (before ++ line :: after) data =
  parse_lines (before ++ after) data.
Proof.
  intros H. rewrite !parse_lines_app. simpl. now rewrite H.
Qed.

Lemma parse_lines_bad (before after : list string) (line : string)
  (data : Dict.t) :
  parse_line line = Bad ->
  parse_lines (before ++ line :: after) data = Exit 1.
Proof.
  intros H. rewrite parse_lines_app.
  destruct (parse_lines before data) as [d|status] eqn:E.
  - simpl. now rewrite H.
  - now rewrite (parse_lines_exit _ _ _ E).
Qed.

End ParseFacts.

(** C10.  A line without a tab, or with fewer than two tab-separated fields
    once stripped, leaves the result of the ingestion as it is without that
    line; a line with a tab and two fields whose second field [int] rejects
    ends the ingestion with [sys.exit(1)], whatever the other lines are, and
    no table comes out. *)
Theorem malformed_lines (before after : list string) (line : string)
  (data : Dict.t) :
  let parts := PyStr.split PyStr.TAB (PyStr.strip line) in
  (PyStr.has_char PyStr.TAB line = false \/ (List.length parts < 2)%nat ->
   parse_lines (before ++ line :: after) data =
   parse_lines (before ++ after) data) /\
  (PyStr.has_char PyStr.TAB line = true ->
   (2 <= List.length parts)%nat ->
   PyStr.int (nth 1 parts "") = None ->
   parse_lines (before ++ line :: after) data = Exit 1).
Proof.
  intros parts. split.
  - intros H. apply parse_lines_skip. unfold parse_line. fold parts.
    destruct H as [-> | H]; [reflexivity|].
    destruct (PyStr.has_char PyStr.TAB line); [|reflexivity].
    apply Nat.leb_gt in H. now rewrite H.
  - intros Htab Hlen Hint. apply parse_lines_bad.
    unfold parse_line. fold parts. rewrite Htab.
    apply Nat.leb_le in Hlen. now rewrite Hlen, Hint.
Qed.

Lemma malformed_lines_witness :
  parse_lines ([tab_line "main" "7"] ++ "no tab here" :: [tab_line "sql" "2"])
    Dict.empty = Done [("main", 7); ("sql", 2)] /\
  parse_lines ([tab_line "main" "7"] ++ String PyStr.TAB "9" :: []) Dict.empty
    = Done [("main", 7)] /\
  parse_lines ([tab_line "main" "7"] ++ tab_line "run" "1.5"
                 :: [tab_line "sql" "2"]) Dict.empty = Exit 1.
Proof.
  pose proof (malformed_lines [tab_line "main" "7"] [tab_line "sql" "2"]
                "no tab here" Dict.empty) as [H1 _].
  pose proof (malformed_lines [tab_line "main" "7"] []
                (String PyStr.TAB "9") Dict.empty) as [H2 _].
  pose proof (malformed_lines [tab_line "main" "7"] [tab_line "sql" "2"]
                (tab_line "run" "1.5") Dict.empty) as [_ H3].
  split; [|split].
  - rewrite H1; [reflexivity | left; reflexivity].
  - rewrite H2; [reflexivity | right; vm_compute; lia].
  - apply H3; [reflexivity | vm_compute; lia | reflexivity].
Defined.

(** ** The scan of [re.findall] ends *)

Section RegexFacts.

Import Re.

Lemma drop_prefix_length (l s s' : string) :
  drop_prefix l s = Some s' ->
  String.length s = (String.length l + String.length s')%nat.
Proof.
  revert s; induction l as [|a l IH]; intros [|b s]; simpl;
    try discriminate; try (now intros [= <-]).
  destruct (Ascii.eqb a b); [|discriminate].
  intros H. now rewrite (IH _ H).
Qed.

Lemma star_loop_rest (k : group -> string -> option (string * string))
  (cls : ascii -> bool) :
  (forall g s r, k g s = Some r ->
     (String.length (snd r) <= String.length s)%nat) ->
  forall s g r, star_loop k cls g s = Some r ->
    (String.length (snd r) <= String.length s)%nat.
Proof.
  intros Hk. induction s as [|c s IH]; intros g r; simpl.
  - apply Hk.
  - destruct (cls c); [|apply Hk].
    destruct (star_loop k cls (feed c g) s) as [r'|] eqn:E.
    + intros [= <-]. apply IH in E. lia.
    + apply Hk.
Qed.

Lemma match_here_rest (p : list item) :
  forall g s r, match_here p g s = Some r ->
    (String.length (snd r) <= String.length s)%nat.
Proof.
  induction p as [|it p IH]; intros g s r; simpl.
  - intros [= <-]. simpl. lia.
  - destruct it as [l|cls|cls| |].
    + destruct (drop_prefix l s) as [s'|] eqn:E; [|discriminate].
      intros H. apply IH in H. apply drop_prefix_length in E. lia.
    + destruct s as [|c s]; [discriminate|].
      destruct (cls c); [|discriminate].
      intros H. apply IH in H. simpl. lia.
    + apply star_loop_rest, IH.
    + apply IH.
    + apply IH.
Qed.

(** A match of the title pattern reads at least the two characters of
    its opening literal. *)
Lemma svg_title_consumes (s text rest : string) :
  match_here svg_title Before s = Some (text, rest) ->
  (String.length rest < String.length s)%nat.
Proof.
  assert (E0 : svg_title = Lit "<g" :: tl svg_title) by reflexivity.
  rewrite E0. generalize (tl svg_title). intros tail. cbn [match_here].
  destruct (drop_prefix "<g" s) as [s'|] eqn:E; [|discriminate].
  intros H. apply match_here_rest in H. apply drop_prefix_length in E.
  simpl in *. lia.
Qed.

(** The scan never stops for want of fuel: more fuel than the text has
    characters changes nothing. *)
Lemma findall_fuel (fuel : nat) (s : string) :
  (String.length s < fuel)%nat ->
  findall_from svg_title fuel s = findall svg_title s.
Proof.
  unfold findall.
  enough (H : forall f1 f2 s0,
             (String.length s0 < f1)%nat -> (String.length s0 < f2)%nat ->
             findall_from svg_title f1 s0 = findall_from svg_title f2 s0)
    by (intros; apply H; lia).
  clear. induction f1 as [|f1 IH]; intros [|f2] s0 H1 H2; try lia.
  cbn [findall_from].
  destruct (match_here svg_title Before s0) as [[text rest]|] eqn:E.
  - apply svg_title_consumes in E. f_equal. apply IH; lia.
  - destruct s0 as [|c s0]; [reflexivity|]. simpl in H1, H2.
    apply IH; lia.
Qed.

End RegexFacts.

(** ** Reading the flame graph *)

Section SvgFacts.

Lemma get_count_matches (name : string) (ms : list string) (d : Dict.t) :
  Dict.get name (fold_left count_match ms d) =
  Dict.get name d +
  Z.of_nat (count_occ string_dec (map PyStr.strip ms) name).
Proof.
  revert d; induction ms as [|m ms IH]; intros d; simpl; [lia|].
  rewrite IH. unfold count_match. rewrite get_add.
  destruct (string_dec (PyStr.strip m) name) as [->|Hne].
  - rewrite String.eqb_refl. lia.
  - destruct (String.eqb_spec name (PyStr.strip m)); [congruence|lia].
Qed.

Lemma parse_svg_read (raw : string) :
  PyStr.utf8 raw = true ->
  _parse_svg raw = Done (fold_left count_match (matches raw) Dict.empty).
Proof. intros H. unfold _parse_svg, PyStr.decode. now rewrite H. Qed.

Lemma parse_svg_done (raw : string) (data : Dict.t) :
  _parse_svg raw = Done data ->
  PyStr.utf8 raw = true /\
  data = fold_left count_match (matches raw) Dict.empty.
Proof.
  unfold _parse_svg, PyStr.decode.
  destruct (PyStr.utf8 raw); [|discriminate]. now intros [= <-].
Qed.

Lemma parse_svg_exit (raw : string) :
  _parse_svg raw = Exit 1 <-> PyStr.decode raw = None.
Proof.
  unfold _parse_svg, PyStr.decode.
  destruct (PyStr.utf8 raw); split; try discriminate; reflexivity.
Qed.

Lemma utf8_ascii (s : string) :
  Terms.all_chars PyStr.is_ascii s = true -> PyStr.utf8 s = true.
Proof.
  induction s as [|c s IH]; [reflexivity|].
  cbn [Terms.all_chars PyStr.utf8]. intros H.
  apply andb_prop in H as [Hc Hs]. rewrite Hc. now apply IH.
Qed.

End SvgFacts.

(** Two fragments for [main] with 5 and 900 samples, one for [run] with 7:
    the table holds 2 for [main] and 1 for [run]. *)
Example svg_counts_example :
  _parse_svg
    ("<svg><g class='f'><title>main (app.py:3) (5 samples, 0.5%)</title>" ++
     "<rect/></g><g><title>run (7 samples, 0.7%)</title></g>" ++
     "<g><title>main (app.py:3) (900 samples, 90%)</title></g></svg>")
  = Done [("main (app.py:3)", 2); ("run", 1)].
Proof. reflexivity. Qed.

(** ** Category totals *)

Section AnalyzeFacts.

Lemma analyze_loop (total : Z) (l : list (string * Z))
  (tops : list top_entry) (cats : Dict.t) :
  fold_left (analyze_step total) l (tops, cats) =
  ((tops ++ map (fun it => {| function := fst it; samples := snd it;
                    percentage := PyFloat.round2 (share (snd it) total) |}) l)
     %list,
   fold_left (fun c it => Dict.add (_categorize_function (fst it)) (snd it) c)
     l cats).
Proof.
  revert tops cats; induction l as [|[func count] l IH]; intros tops cats;
    simpl.
  - now rewrite app_nil_r.
  - rewrite IH. now rewrite <- app_assoc.
Qed.

Lemma ranking_analyze (data : Dict.t) :
  ranking (analyze data) = firstn 50 (sorted_desc data).
Proof.
  unfold ranking, analyze, Dict.items. rewrite analyze_loop. simpl.
  rewrite map_map. simpl.
  rewrite <- (map_id (firstn 50 (sorted_desc data))) at 2.
  apply map_ext. now intros [f c].
Qed.

Lemma get_categories_loop (category : string) (l : list (string * Z))
  (cats : Dict.t) :
  Dict.get category
    (fold_left (fun c it => Dict.add (_categorize_function (fst it)) (snd it) c)
       l cats) =
  Dict.get category cats + category_samples category l.
Proof.
  unfold category_samples.
  revert cats; induction l as [|[func count] l IH]; intros cats; simpl;
    [lia|].
  rewrite IH, get_add. rewrite (String.eqb_sym category).
  destruct (String.eqb (_categorize_function func) category); simpl; lia.
Qed.

(** What [analyze] does compute: the total of a category covers the frames
    of the ranking, the first 50 of the sorted table. *)
Lemma categories_cover_ranking (data : Dict.t) (category : string) :
  Dict.get category (categories (analyze data)) =
  category_samples category (firstn 50 (sorted_desc data)).
Proof.
  unfold analyze, Dict.items. rewrite analyze_loop. simpl.
  now rewrite get_categories_loop.
Qed.

End AnalyzeFacts.

(** C1 does not hold of [analyze].  On the 51 frames of [crowded] the frame
    [run_query], a database frame with 1 sample, ranks last and is left out
    of the category totals: the table's database frames sum to 1 while the
    database total of the analysis is 0. *)
Theorem categories_leave_out_rank_51 :
  exists data,
    _parse_json crowded = Done data /\
    List.length data = 51%nat /\
    Dict.get "run_query" data = 1 /\
    _categorize_function "run_query" = "database" /\
    category_samples "database" data = 1 /\
    Dict.get "database" (categories (analyze data)) = 0 /\
    total_samples (analyze data) = 101 /\
    categories (analyze data) = [("other", 100)].
Proof.
  destruct (_parse_json crowded) as [data|] eqn:E;
    vm_compute in E; [|discriminate E].
  injection E as <-. eexists. split; [reflexivity|].
  repeat split; vm_compute; reflexivity.
Qed.

(** ** Stopping a process tree *)

(** C9.  Where [psutil.Process] answers [NoSuchProcess] for every PID that is
    not in the process table, [kill_process_tree] on such a PID returns
    normally and leaves the system as it was. *)
Theorem kill_absent_process_is_noop
  (world : Type) (sys : Monitor.os world) (in_table : world -> Z -> bool)
  (pid : Z) (w : world) :
  (forall p w0, 0 <= p -> in_table w0 p = false ->
     Monitor.Process world sys p w0 = (Monitor.Raise Monitor.NoSuchProcess, w0)) ->
  0 <= pid ->
  in_table w pid = false ->
  Monitor.kill_process_tree sys pid w = (Monitor.Ok tt, w).
Proof.
  intros Hcontract Hpid Habsent.
  unfold Monitor.kill_process_tree, Monitor.try_except, Monitor.bind.
  now rewrite (Hcontract pid w Hpid Habsent).
Qed.

Lemma kill_absent_process_is_noop_witness :
  Monitor.kill_process_tree Monitor.Table.sys 7
    [(1, 0); (20, 1); (21, 20); (22, 20)]
  = (Monitor.Ok tt, [(1, 0); (20, 1); (21, 20); (22, 20)]).
Proof.
  apply (kill_absent_process_is_noop Monitor.Table.world Monitor.Table.sys
           Monitor.Table.present).
  - intros p w0 Hp Hw0. simpl.
    destruct (Z.ltb_spec p 0) as [Hlt|_]; [lia|]. now rewrite Hw0.
  - lia.
  - reflexivity.
Defined.

(** On a PID that is in the table the same function takes the descendants
    and the process itself out of it. *)
Example kill_present_process :
  Monitor.kill_process_tree Monitor.Table.sys 20
    [(1, 0); (20, 1); (21, 20); (22, 21); (30, 1)]
  = (Monitor.Ok tt, [(1, 0); (30, 1)]).
Proof. reflexivity. Qed.

(** ** Totals of the tab-delimited table *)

Section TotalsFacts.

Lemma parse_lines_rows (lines : list string) (d data : Dict.t) :
  parse_lines lines d = Done data ->
  data = fold_left add_frame (rows lines) d /\ Forall accepted lines.
Proof.
  revert d; induction lines as [|line lines IH]; intros d; simpl.
  - intros [= <-]. auto.
  - unfold accepted at 1.
    destruct (parse_line line) as [|func count|] eqn:E; try discriminate;
      intros H; apply IH in H as [-> HF]; split; auto;
      constructor; auto; unfold accepted; congruence.
Qed.

Lemma parse_lines_accepted (lines : list string) (d : Dict.t) :
  Forall accepted lines ->
  parse_lines lines d = Done (fold_left add_frame (rows lines) d).
Proof.
  intros HF; revert d; induction HF as [|line lines Hok _ IH]; intros d;
    simpl; [reflexivity|].
  unfold accepted in Hok.
  destruct (parse_line line); try congruence; apply IH.
Qed.

Lemma rows_permutation (l l' : list string) :
  Permutation l l' -> Permutation (rows l) (rows l').
Proof.
  induction 1 as [|x l l' _ IH|x y l|l l' l'' _ IH1 _ IH2]; simpl.
  - constructor.
  - destruct (parse_line x); auto.
  - destruct (parse_line x), (parse_line y); auto. apply perm_swap.
  - now transitivity (rows l').
Qed.

Lemma total_permutation (l l' : list Z) :
  Permutation l l' -> total l = total l'.
Proof. induction 1; simpl; lia. Qed.

Lemma total_ingest (frames : list (string * Z)) (d : Dict.t) :
  total (Dict.values (fold_left add_frame frames d)) =
  total (Dict.values d) + total (map snd frames).
Proof.
  revert d; induction frames as [|[f c] frames IH]; intros d; simpl; [lia|].
  rewrite IH. unfold add_frame. simpl. rewrite total_values_add. lia.
Qed.

Lemma keys_ingest (frames : list (string * Z)) (d : Dict.t) :
  Dict.keys (fold_left add_frame frames d) =
  (Dict.keys d ++ fresh (Dict.keys d) (map fst frames))%list.
Proof.
  revert d; induction frames as [|[f c] frames IH]; intros d; simpl.
  - now rewrite app_nil_r.
  - rewrite IH. unfold add_frame. simpl. rewrite keys_add.
    destruct (in_dec string_dec f (Dict.keys d)); [reflexivity|].
    now rewrite <- app_assoc.
Qed.

Lemma fresh_in (x : string) (names seen : list string) :
  In x (fresh seen names) <-> In x names /\ ~ In x seen.
Proof.
  revert seen; induction names as [|n names IH]; intros seen; simpl;
    [tauto|].
  destruct (in_dec string_dec n seen) as [Hin|Hout].
  - rewrite IH. split; [tauto|]. intros [[->|H] Hs]; tauto.
  - simpl. rewrite IH, in_app_iff. simpl.
    destruct (string_dec n x) as [->|Hne]; [tauto|]. tauto.
Qed.

Lemma fresh_nodup (names seen : list string) : NoDup (fresh seen names).
Proof.
  revert seen; induction names as [|n names IH]; intros seen; simpl;
    [constructor|].
  destruct (in_dec string_dec n seen); [apply IH|].
  constructor; [|apply IH].
  rewrite fresh_in, in_app_iff. simpl. tauto.
Qed.

Lemma keys_ingest_nodup (frames : list (string * Z)) :
  NoDup (Dict.keys (ingest frames)).
Proof.
  unfold ingest. rewrite keys_ingest. simpl. apply fresh_nodup.
Qed.

Lemma length_ingest (frames : list (string * Z)) :
  List.length (ingest frames) =
  List.length (nodup string_dec (map fst frames)).
Proof.
  rewrite <- (length_map fst (ingest frames)).
  apply Permutation_length, NoDup_Permutation.
  - apply keys_ingest_nodup.
  - apply NoDup_nodup.
  - intros x. unfold ingest.
    fold (Dict.keys (fold_left add_frame frames Dict.empty)).
    rewrite keys_ingest, nodup_In. simpl. rewrite fresh_in. simpl. tauto.
Qed.

Lemma distinct_permutation (l l' : list string) :
  Permutation l l' ->
  List.length (nodup string_dec l) = List.length (nodup string_dec l').
Proof.
  intros HP. apply Permutation_length, NoDup_Permutation;
    try apply NoDup_nodup.
  intros x. rewrite !nodup_In.
  split; apply Permutation_in; [|symmetry]; exact HP.
Qed.

Lemma analyze_totals (data : Dict.t) :
  total_samples (analyze data) = total (Dict.values data) /\
  unique_functions (analyze data) = List.length data.
Proof.
  unfold analyze. rewrite analyze_loop. simpl. now rewrite sum_total.
Qed.

Lemma parse_json_ingest (content : string) (data : Dict.t) :
  _parse_json content = Done data ->
  data = ingest (rows (PyStr.readlines content)).
Proof. intros H. now apply parse_lines_rows in H as [-> _]. Qed.

End TotalsFacts.

(** C4.  When a tab-delimited artifact is read, [total_samples] is the sum
    of the counts of its lines and [unique_functions] is the number of
    distinct frame names among them; the lines taken in any other order are
    read as well and give the same two values. *)
Theorem totals_invariant (content : string) (data : Dict.t) :
  _parse_json content = Done data ->
  let lines := PyStr.readlines content in
  total_samples (analyze data) = total (map snd (rows lines)) /\
  unique_functions (analyze data) =
    List.length (nodup string_dec (map fst (rows lines))) /\
  forall lines', Permutation lines lines' ->
    exists data',
      parse_lines lines' Dict.empty = Done data' /\
      total_samples (analyze data') = total_samples (analyze data) /\
      unique_functions (analyze data') = unique_functions (analyze data).
Proof.
  intros H lines. unfold _parse_json in H. fold lines in H.
  apply parse_lines_rows in H as [Hdata Hok].
  fold (ingest (rows lines)) in Hdata.
  assert (Hshape : forall ls, total_samples (analyze (ingest ls)) =
                                total (map snd ls) /\
                              unique_functions (analyze (ingest ls)) =
                                List.length (nodup string_dec (map fst ls))).
  { intros ls. destruct (analyze_totals (ingest ls)) as [-> ->].
    split; [|apply length_ingest].
    unfold ingest. now rewrite total_ingest. }
  subst data. destruct (Hshape (rows lines)) as [Ht Hu].
  split; [exact Ht|]. split; [exact Hu|].
  intros lines' HP. exists (ingest (rows lines')).
  split.
  - apply parse_lines_accepted.
    now apply (Permutation_Forall HP).
  - destruct (Hshape (rows lines')) as [-> ->]. rewrite Ht, Hu.
    pose proof (rows_permutation _ _ HP) as HR. split.
    + symmetry. apply total_permutation. now apply Permutation_map.
    + symmetry. apply distinct_permutation. now apply Permutation_map.
Qed.

Lemma totals_invariant_witness :
  let content := tab_line "main" "4" ++ tab_line "run_query" "3"
                 ++ "comment" ++ PyStr.NL ++ tab_line "main" "5" in
  exists data',
    parse_lines [tab_line "main" "5"; "comment" ++ PyStr.NL;
                 tab_line "run_query" "3"; tab_line "main" "4"] Dict.empty
      = Done data' /\
    total_samples (analyze data') = 12 /\
    unique_functions (analyze data') = 2%nat.
Proof.
  intros content.
  destruct (totals_invariant content [("main", 9); ("run_query", 3)]
              eq_refl) as (_ & _ & Hperm).
  apply (Hperm [tab_line "main" "5"; "comment" ++ PyStr.NL;
                tab_line "run_query" "3"; tab_line "main" "4"]).
  change (PyStr.readlines content)
    with [tab_line "main" "4"; tab_line "run_query" "3";
          "comment" ++ PyStr.NL; tab_line "main" "5"].
  apply Permutation_rev.
Defined.

(** ** Order in a list *)

Section OrderFacts.

Context {A : Type}.
Implicit Types (x y a : A) (l : list A).

Lemma precedes_cons x y a l : precedes x y l -> precedes x y (a :: l).
Proof.
  intros (l1 & l2 & l3 & ->). now exists (a :: l1), l2, l3.
Qed.

Lemma precedes_head x y l : In y l -> precedes x y (x :: l).
Proof.
  intros H. apply in_split in H as (l2 & l3 & ->). now exists [], l2, l3.
Qed.

Lemma precedes_app_l x y l l' : precedes x y l -> precedes x y (l ++ l').
Proof.
  intros (l1 & l2 & l3 & ->). exists l1, l2, (l3 ++ l')%list.
  now rewrite <- !app_assoc, <- !app_comm_cons, <- app_assoc.
Qed.

Lemma precedes_inv x y a l :
  precedes x y (a :: l) -> (a = x /\ In y l) \/ precedes x y l.
Proof.
  intros ([|b l1] & l2 & l3 & H); simpl in H; injection H as -> ->.
  - left. split; [reflexivity|]. rewrite in_app_iff. simpl. auto.
  - right. now exists l1, l2, l3.
Qed.

Lemma precedes_in x y l : precedes x y l -> In x l /\ In y l.
Proof.
  intros (l1 & l2 & l3 & ->).
  split; apply in_or_app; right;
    [left; reflexivity | right; apply in_or_app; right; left; reflexivity].
Qed.

Lemma precedes_total x y l :
  In x l -> In y l -> x <> y -> precedes x y l \/ precedes y x l.
Proof.
  induction l as [|a l IH]; simpl; [tauto|].
  intros [->|Hx] [->|Hy] Hne; try congruence.
  - left. now apply precedes_head.
  - right. now apply precedes_head.
  - destruct (IH Hx Hy Hne); [left|right]; now apply precedes_cons.
Qed.

Lemma precedes_asym x y l :
  NoDup l -> precedes x y l -> precedes y x l -> False.
Proof.
  induction l as [|a l IH]; intros Hnd Hxy Hyx.
  - destruct Hxy as ([|] & ? & ? & ?); discriminate.
  - inversion Hnd as [|? ? Hnot Hnd']; subst.
    apply precedes_inv in Hxy as [[-> Hy]|Hxy];
      apply precedes_inv in Hyx as [[-> Hx]|Hyx]; try tauto.
    + apply precedes_in in Hyx. tauto.
    + apply precedes_in in Hxy. tauto.
Qed.

Lemma precedes_map {B : Type} (h : A -> B) x y l :
  precedes x y l -> precedes (h x) (h y) (map h l).
Proof.
  intros (l1 & l2 & l3 & ->). exists (map h l1), (map h l2), (map h l3).
  now rewrite map_app, map_cons, map_app, map_cons.
Qed.

End OrderFacts.

Section IndexFacts.

Lemma index_of_in (x : string) (l : list string) (i : nat) :
  index_of x l = Some i -> In x l.
Proof.
  revert i; induction l as [|y l IH]; intros i; simpl; [discriminate|].
  destruct (String.eqb_spec x y) as [->|_]; [auto|].
  destruct (index_of x l); [|discriminate]. eauto.
Qed.

Lemma index_of_precedes (f g : string) (l : list string) (i j : nat) :
  index_of f l = Some i -> index_of g l = Some j -> (i < j)%nat ->
  precedes f g l.
Proof.
  revert i j; induction l as [|y l IH]; intros i j; simpl; [discriminate|].
  destruct (String.eqb_spec f y) as [->|Hf].
  - intros [= <-]. destruct (String.eqb_spec g y) as [->|Hg].
    + intros [= <-]. lia.
    + destruct (index_of g l) eqn:E; [|discriminate].
      intros _ _. apply precedes_head. eapply index_of_in, E.
  - destruct (index_of f l) as [i0|] eqn:Ef; [|discriminate].
    intros [= <-]. destruct (String.eqb_spec g y) as [->|Hg].
    + intros [= <-]. lia.
    + destruct (index_of g l) as [j0|] eqn:Eg; [|discriminate].
      intros [= <-] Hlt. apply precedes_cons.
      apply (IH i0 j0); auto. lia.
Qed.

Lemma precedes_index_of (f g : string) (l : list string) (i j : nat) :
  NoDup l -> precedes f g l ->
  index_of f l = Some i -> index_of g l = Some j -> (i < j)%nat.
Proof.
  intros Hnd Hfg Hi Hj.
  destruct (Nat.lt_trichotomy i j) as [Hlt|[->|Hgt]]; [exact Hlt| |].
  - exfalso.
    assert (f = g).
    { clear Hfg Hnd. revert j Hi Hj.
      induction l as [|y l IH]; intros j; simpl; [discriminate|].
      destruct (String.eqb_spec f y) as [->|Hf],
               (String.eqb_spec g y) as [->|Hg]; auto.
      - destruct (index_of g l); intros [= <-]; discriminate.
      - destruct (index_of f l); intros [= <-]; discriminate.
      - destruct (index_of f l) as [i0|] eqn:Ef,
                 (index_of g l) as [j0|] eqn:Eg; try discriminate.
        intros [= <-] [= ->]. now apply (IH i0). }
    subst g. destruct Hfg as (l1 & l2 & l3 & ->).
    apply NoDup_remove_2 in Hnd. apply Hnd.
    rewrite !in_app_iff. simpl. auto.
  - exfalso. apply (precedes_asym f g l Hnd Hfg).
    now apply (index_of_precedes g f l j i).
Qed.

Lemma fresh_precedes (f g : string) (names seen : list string) (i j : nat) :
  index_of f names = Some i -> index_of g names = Some j -> (i < j)%nat ->
  ~ In f seen -> ~ In g seen ->
  precedes f g (fresh seen names).
Proof.
  revert seen i j; induction names as [|n names IH]; intros seen i j;
    simpl; [discriminate|].
  destruct (String.eqb_spec f n) as [->|Hf].
  - intros [= <-]. destruct (String.eqb_spec g n) as [->|Hg].
    + intros [= <-]. lia.
    + destruct (index_of g names) eqn:Eg; [|discriminate].
      intros _ _ Hfs Hgs.
      destruct (in_dec string_dec n seen); [tauto|].
      apply precedes_head, fresh_in. split.
      * eapply index_of_in, Eg.
      * rewrite in_app_iff. simpl. intros [?|[?|[]]]; congruence.
  - destruct (index_of f names) as [i0|] eqn:Ef; [|discriminate].
    intros [= <-]. destruct (String.eqb_spec g n) as [->|Hg].
    + intros [= <-]. lia.
    + destruct (index_of g names) as [j0|] eqn:Eg; [|discriminate].
      intros [= <-] Hlt Hfs Hgs.
      destruct (in_dec string_dec n seen).
      * apply (IH seen i0 j0); auto. lia.
      * apply precedes_cons. apply (IH _ i0 j0); auto; try lia;
          rewrite in_app_iff; simpl; intros [?|[?|[]]]; congruence.
Qed.

End IndexFacts.

(** ** The ranking *)

Section SortFacts.

Implicit Types (a x y : string * Z) (l : list (string * Z)).

Lemma insert_desc_permutation a l : Permutation (insert_desc a l) (a :: l).
Proof.
  induction l as [|z l IH]; simpl; [reflexivity|].
  destruct (snd a <? snd z); [|reflexivity].
  rewrite IH. apply perm_swap.
Qed.

Lemma sorted_desc_permutation l : Permutation (sorted_desc l) l.
Proof.
  induction l as [|a l IH]; simpl; [reflexivity|].
  rewrite insert_desc_permutation. now constructor.
Qed.

Lemma insert_desc_sorted a l :
  StronglySorted (fun x y => snd y <= snd x) l ->
  StronglySorted (fun x y => snd y <= snd x) (insert_desc a l).
Proof.
  induction 1 as [|z l Hs IH Hz]; simpl.
  - repeat constructor.
  - destruct (Z.ltb_spec (snd a) (snd z)) as [Hlt|Hge].
    + constructor; [exact IH|].
      apply (Permutation_Forall (Permutation_sym (insert_desc_permutation a l))).
      constructor; [lia|exact Hz].
    + constructor; [now constructor|].
      constructor; [exact Hge|].
      eapply Forall_impl; [|exact Hz]. simpl. intros; lia.
Qed.

Lemma sorted_desc_sorted l :
  StronglySorted (fun x y => snd y <= snd x) (sorted_desc l).
Proof.
  induction l as [|a l IH]; simpl; [constructor|].
  now apply insert_desc_sorted.
Qed.

Lemma precedes_insert_desc a x y l :
  precedes x y l -> precedes x y (insert_desc a l).
Proof.
  induction l as [|z l IH]; simpl.
  - intros ([|] & ? & ? & ?); discriminate.
  - intros H. destruct (snd a <? snd z); [|now apply precedes_cons].
    apply precedes_inv in H as [[-> Hy]|H].
    + apply precedes_head.
      apply (Permutation_in _ (Permutation_sym (insert_desc_permutation a l))).
      now right.
    + now apply precedes_cons, IH.
Qed.

Lemma insert_desc_first a y l :
  In y l -> snd y <= snd a -> precedes a y (insert_desc a l).
Proof.
  induction l as [|z l IH]; simpl; [tauto|].
  intros Hy Hle. destruct (Z.ltb_spec (snd a) (snd z)) as [Hlt|Hge].
  - destruct Hy as [->|Hy]; [lia|]. now apply precedes_cons, IH.
  - now apply precedes_head.
Qed.

(** The sort is stable: items with equal counts keep their order. *)
Lemma sorted_desc_stable x y l :
  precedes x y l -> snd x = snd y -> precedes x y (sorted_desc l).
Proof.
  induction l as [|a l IH]; simpl.
  - intros ([|] & ? & ? & ?); discriminate.
  - intros H Heq. apply precedes_inv in H as [[-> Hy]|H].
    + apply insert_desc_first; [|lia].
      now apply (Permutation_in _ (Permutation_sym (sorted_desc_permutation l))).
    + now apply precedes_insert_desc, IH.
Qed.

Lemma precedes_keys (d : Dict.t) (f g : string) (cf cg : Z) :
  NoDup (Dict.keys d) -> In (f, cf) d -> In (g, cg) d ->
  precedes f g (Dict.keys d) -> precedes (f, cf) (g, cg) d.
Proof.
  intros Hnd Hf Hg Hfg.
  assert (Hne : f <> g).
  { intros ->. destruct Hfg as (l1 & l2 & l3 & E). rewrite E in Hnd.
    apply NoDup_remove_2 in Hnd. apply Hnd.
    rewrite !in_app_iff. simpl. auto. }
  destruct (precedes_total (f, cf) (g, cg) d Hf Hg) as [H|H];
    [congruence|exact H|].
  exfalso. apply (precedes_asym f g (Dict.keys d) Hnd Hfg).
  exact (precedes_map fst _ _ _ H).
Qed.

Lemma precedes_prefix x y l (n : nat) :
  NoDup l -> In x (firstn n l) -> In y (firstn n l) -> x <> y ->
  precedes x y l -> precedes x y (firstn n l).
Proof.
  intros Hnd Hx Hy Hne Hxy.
  destruct (precedes_total x y _ Hx Hy Hne) as [H|H]; [exact H|].
  exfalso. apply (precedes_asym x y l Hnd Hxy).
  rewrite <- (firstn_skipn n l). now apply precedes_app_l.
Qed.

Lemma tally_ingest (ms : list string) (d : Dict.t) :
  fold_left count_match ms d =
  fold_left add_frame (map (fun m => (PyStr.strip m, 1)) ms) d.
Proof.
  revert d; induction ms as [|m ms IH]; intros d; simpl; [reflexivity|].
  apply IH.
Qed.

Lemma svg_ingest (content : string) (data : Dict.t) :
  _parse_svg content = Done data -> data = ingest (svg_rows content).
Proof.
  intros H. apply parse_svg_done in H as [_ ->].
  unfold ingest, svg_rows. apply tally_ingest.
Qed.

(** The ranking of the table built from [frames]. *)
Lemma ranking_of_frames (frames : list (string * Z)) :
  let data := ingest frames in
  let top := ranking (analyze data) in
  top = firstn 50 (sorted_desc data) /\
  Permutation (sorted_desc data) data /\
  StronglySorted (fun x y => snd y <= snd x) (sorted_desc data) /\
  (forall x y, In y top -> In x data -> ~ In x top -> snd x <= snd y) /\
  (forall f g i j i' j',
     index_of f (map fst frames) = Some i ->
     index_of g (map fst frames) = Some j ->
     (i < j)%nat ->
     Dict.get f data = Dict.get g data ->
     index_of f (map fst top) = Some i' ->
     index_of g (map fst top) = Some j' ->
     (i' < j')%nat).
Proof.
  intros data top.
  assert (Htop : top = firstn 50 (sorted_desc data))
    by apply ranking_analyze.
  pose proof (sorted_desc_permutation data) as Hperm.
  pose proof (sorted_desc_sorted data) as Hsorted.
  pose proof (keys_ingest_nodup frames) as Hkeys. fold data in Hkeys.
  assert (Hnd : NoDup (sorted_desc data)).
  { apply (Permutation_NoDup (Permutation_sym Hperm)).
    exact (NoDup_map_inv _ _ Hkeys). }
  assert (Hsub : forall x, In x top -> In x data).
  { intros x Hx. apply (Permutation_in _ Hperm).
    rewrite <- (firstn_skipn 50). apply in_or_app. left. now rewrite <- Htop. }
  repeat split; auto.
  - intros x y Hy Hx Hnot.
    apply (Permutation_in _ (Permutation_sym Hperm)) in Hx.
    rewrite <- (firstn_skipn 50), <- Htop in Hx, Hsorted.
    apply in_app_or in Hx as [Hx|Hx]; [tauto|].
    clear - Hsorted Hy Hx. induction top as [|z top IH]; [destruct Hy|].
    simpl in Hsorted. apply StronglySorted_inv in Hsorted as [Hs Hz].
    destruct Hy as [->|Hy]; [|now apply IH].
    rewrite Forall_forall in Hz. apply Hz, in_or_app. now right.
  - intros f g i j i' j' Hi Hj Hlt Heq Hi' Hj'.
    assert (Hfg : precedes f g (Dict.keys data)).
    { unfold data, ingest. rewrite keys_ingest. simpl.
      apply (fresh_precedes f g _ [] i j); auto. }
    pose proof (index_of_in _ _ _ Hi') as Hf.
    pose proof (index_of_in _ _ _ Hj') as Hg.
    apply in_map_iff in Hf as ([f0 cf] & Ef & Hf).
    apply in_map_iff in Hg as ([g0 cg] & Eg & Hg).
    simpl in Ef, Eg. subst f0 g0.
    pose proof (get_in _ _ _ Hkeys (Hsub _ Hf)) as Ecf.
    pose proof (get_in _ _ _ Hkeys (Hsub _ Hg)) as Ecg.
    assert (Hpair : precedes (f, cf) (g, cg) top).
    { rewrite Htop. rewrite Htop in Hf, Hg.
      apply precedes_prefix; auto.
      - intros [= -> _]. destruct Hfg as (l1 & l2 & l3 & E).
        rewrite E in Hkeys. apply NoDup_remove_2 in Hkeys. apply Hkeys.
        rewrite !in_app_iff. simpl. auto.
      - apply sorted_desc_stable; [|simpl; congruence].
        apply precedes_keys; auto; apply Hsub; now rewrite Htop. }
    apply (precedes_index_of f g (map fst top)); auto.
    + rewrite Htop, <- firstn_map.
      apply (NoDup_app_remove_r _ (skipn 50 (map fst (sorted_desc data)))).
      rewrite firstn_skipn.
      apply (Permutation_NoDup
               (Permutation_sym (Permutation_map fst Hperm)) Hkeys).
    + exact (precedes_map fst _ _ _ Hpair).
Qed.

End SortFacts.

(** ** Category totals of a small table *)

Section SmallTable.

Variable category : string.

Lemma category_samples_permutation (l l' : list (string * Z)) :
  Permutation l l' ->
  category_samples category l = category_samples category l'.
Proof.
  unfold category_samples.
  induction 1 as [|x l l' _ IH|x y l|l l' l'' _ IH1 _ IH2]; simpl.
  - reflexivity.
  - destruct (String.eqb _ _); simpl; lia.
  - destruct (String.eqb (_categorize_function (fst x)) category),
             (String.eqb (_categorize_function (fst y)) category);
      simpl; lia.
  - lia.
Qed.

(** When the table has at most 50 frames the ranking is the whole table
    and the category totals cover every frame. *)
Lemma categories_cover_small_table (data : Dict.t) :
  (List.length data <= 50)%nat ->
  Dict.get category (categories (analyze data)) =
  category_samples category data.
Proof.
  intros Hlen. rewrite categories_cover_ranking, firstn_all2.
  - apply category_samples_permutation, sorted_desc_permutation.
  - now rewrite (Permutation_length (sorted_desc_permutation data)).
Qed.

End SmallTable.

(** C5.  The ranking of an artifact is the first 50 items of its table
    sorted by descending count: no frame left out has more samples than a
    frame kept, and of two frames with equal counts the one met first in the
    artifact ranks first. *)
Theorem ranking_top_50_stable (suffix content : string) (data : Dict.t) :
  load_data suffix content = Done data ->
  let frames := if String.eqb suffix ".svg" then svg_rows content
                else rows (PyStr.readlines content) in
  let top := ranking (analyze data) in
  data = ingest frames /\
  top = firstn 50 (sorted_desc data) /\
  Permutation (sorted_desc data) data /\
  StronglySorted (fun x y => snd y <= snd x) (sorted_desc data) /\
  (forall x y, In y top -> In x data -> ~ In x top -> snd x <= snd y) /\
  (forall f g i j i' j',
     index_of f (map fst frames) = Some i ->
     index_of g (map fst frames) = Some j ->
     (i < j)%nat ->
     Dict.get f data = Dict.get g data ->
     index_of f (map fst top) = Some i' ->
     index_of g (map fst top) = Some j' ->
     (i' < j')%nat).
Proof.
  intros Hload frames top.
  assert (Hdata : data = ingest frames).
  { unfold load_data in Hload. unfold frames.
    destruct (String.eqb suffix ".svg").
    - now apply svg_ingest.
    - destruct (String.eqb suffix ".json" || String.eqb suffix ".raw");
        [|discriminate]. now apply parse_json_ingest. }
  split; [exact Hdata|].
  unfold top. rewrite Hdata. apply ranking_of_frames.
Qed.

Lemma ranking_top_50_stable_witness :
  let content := tab_line "render" "3" ++ tab_line "main" "5"
                 ++ tab_line "select" "3" ++ tab_line "render" "2" in
  ranking (analyze [("render", 5); ("main", 5); ("select", 3)]) =
    [("render", 5); ("main", 5); ("select", 3)] /\
  (0 < 1)%nat.
Proof.
  intros content.
  destruct (ranking_top_50_stable ".json" content
              [("render", 5); ("main", 5); ("select", 3)] eq_refl)
    as (_ & Htop & _ & _ & _ & Hstable).
  split; [exact Htop|].
  apply (Hstable "render" "main" 0%nat 1%nat 0%nat 1%nat);
    first [reflexivity | lia].
Defined.

(** ** Waiting for the listener *)

Section WaitFacts.

Import Monitor.

Variable net : Z -> list sconn.
Variables p timeout start : Z.

Lemma find_not_listening (connections : list sconn) :
  ~ listens p connections -> find_process_by_port connections p = None.
Proof.
  induction connections as [|conn rest IH]; simpl; [reflexivity|].
  intros H.
  destruct (String.eqb_spec (status conn) "LISTEN") as [Hs|_]; simpl.
  - destruct (Z.eqb_spec (port (laddr conn)) p) as [Hp|_].
    + exfalso. apply H. exists conn. simpl. auto.
    + apply IH. intros (c & Hc & Hc'). apply H. exists c. simpl. auto.
  - apply IH. intros (c & Hc & Hc'). apply H. exists c. simpl. auto.
Qed.

(** [n] polls in a row that find nothing, all before the timeout, use up
    [n] turns of the loop and [n] polling intervals. *)
Lemma wait_loop_idle (n fuel : nat) (now : Z) :
  (forall i, 0 <= i < Z.of_nat n ->
     now + poll_interval * i - start < 1000 * timeout /\
     truthy (find_process_by_port (net (now + poll_interval * i)) p) = false) ->
  wait_loop (n + fuel) net p timeout start now =
  wait_loop fuel net p timeout start (now + poll_interval * Z.of_nat n).
Proof.
  revert now; induction n as [|n IH]; intros now H.
  - simpl. f_equal. unfold poll_interval. lia.
  - destruct (H 0 ltac:(lia)) as [Hin Hidle].
    replace (now + poll_interval * 0) with now in Hin, Hidle
      by (unfold poll_interval; lia).
    cbn [Nat.add wait_loop].
    apply Z.ltb_lt in Hin. rewrite Hin, Hidle.
    rewrite IH.
    + f_equal. unfold poll_interval. lia.
    + intros i Hi. specialize (H (i + 1) ltac:(lia)).
      replace (now + poll_interval + poll_interval * i)
        with (now + poll_interval * (i + 1)) by (unfold poll_interval; lia).
      exact H.
Qed.

(** The loop returns: the fuel of [wait_for_app_start] is never used up. *)
Lemma wait_loop_returns (n fuel : nat) (now : Z) :
  1000 * timeout - (now - start) <= poll_interval * Z.of_nat n ->
  (n < fuel)%nat ->
  exists r, wait_loop fuel net p timeout start now = Some r.
Proof.
  revert fuel now; induction n as [|n IH]; intros [|fuel] now Hleft Hfuel;
    try lia; cbn [wait_loop]; unfold poll_interval in *.
  - destruct (Z.ltb_spec (now - start) (1000 * timeout)); [lia|eauto].
  - destruct (Z.ltb_spec (now - start) (1000 * timeout)); [|eauto].
    destruct (truthy (find_process_by_port (net now) p)); [eauto|].
    apply IH; lia.
Qed.

Lemma wait_for_app_start_returns :
  exists r, wait_for_app_start net p timeout start = Some r.
Proof.
  unfold wait_for_app_start.
  apply (wait_loop_returns (Z.to_nat (2 * timeout)));
    unfold poll_interval; lia.
Qed.

Lemma wait_idle :
  (forall i, 0 <= i < 2 * timeout ->
     truthy (find_process_by_port (net (start + poll_interval * i)) p) = false) ->
  wait_for_app_start net p timeout start =
  Some (None, start + 1000 * Z.max 0 timeout).
Proof.
  intros H. unfold wait_for_app_start.
  replace (S (Z.to_nat (2 * timeout))) with (Z.to_nat (2 * timeout) + 1)%nat
    by lia.
  rewrite wait_loop_idle.
  - cbn [wait_loop]. unfold poll_interval.
    destruct (Z.ltb_spec
                (start + 500 * Z.of_nat (Z.to_nat (2 * timeout)) - start)
                (1000 * timeout)) as [Hlt|Hge]; [lia|].
    do 2 f_equal. lia.
  - intros i Hi. split; [unfold poll_interval; lia|]. apply H. lia.
Qed.

Lemma wait_found (k : Z) (owner : Z) :
  0 <= k -> poll_interval * k < 1000 * timeout -> owner <> 0 ->
  (forall i, 0 <= i < k ->
     truthy (find_process_by_port (net (start + poll_interval * i)) p) = false) ->
  find_process_by_port (net (start + poll_interval * k)) p = Some owner ->
  wait_for_app_start net p timeout start =
  Some (Some owner, start + poll_interval * k).
Proof.
  intros Hk Hin Howner Hidle Hfound. unfold wait_for_app_start.
  replace (S (Z.to_nat (2 * timeout)))
    with (Z.to_nat k + S (Z.to_nat (2 * timeout) - Z.to_nat k))%nat
    by (unfold poll_interval in Hin; lia).
  rewrite wait_loop_idle.
  - rewrite Z2Nat.id by exact Hk. cbn [wait_loop].
    replace (start + poll_interval * k - start <? 1000 * timeout) with true
      by (symmetry; apply Z.ltb_lt; lia).
    rewrite Hfound. simpl.
    now destruct (Z.eqb_spec owner 0).
  - intros i Hi. split; [unfold poll_interval in *; lia|]. apply Hidle. lia.
Qed.

End WaitFacts.

(** C8, as stated, fails: with a timeout of one second the polls fall at 0
    and 500 ms; a listener that appears at 700 ms, before the timeout, and
    stays is never seen, and the wait returns none at 1000 ms. *)
Lemma wait_misses_listener_after_last_poll :
  (forall t, 0 <= t < 700 -> appears_at 700 8000 4242 t = []) /\
  (forall t, 700 <= t ->
     Monitor.find_process_by_port (appears_at 700 8000 4242 t) 8000
     = Some 4242) /\
  700 < 1000 * 1 /\
  Monitor.wait_for_app_start (appears_at 700 8000 4242) 8000 1 0
  = Some (None, 1000).
Proof.
  repeat split; try reflexivity; try lia; intros t Ht; unfold appears_at.
  - destruct (Z.ltb_spec t 700); [reflexivity|lia].
  - destruct (Z.ltb_spec t 700); [lia|reflexivity].
Qed.

(** C8, amended.  When no listener is on the port at any time of the timeout
    window, the wait returns none.  When a listener with a non-zero PID
    appears at time [T] and stays, and the first poll at or after [T] falls
    before the timeout, the wait returns that PID at that poll, less than
    one polling interval after [T]. *)
Theorem wait_for_app_start_polls (net : Z -> list Monitor.sconn)
  (p timeout now : Z) :
  ((forall t, now <= t < now + 1000 * timeout -> ~ listens p (net t)) ->
   Monitor.wait_for_app_start net p timeout now
   = Some (None, now + 1000 * Z.max 0 timeout)) /\
  (forall T owner,
     now <= T -> owner <> 0 ->
     (forall t, now <= t < T -> ~ listens p (net t)) ->
     (forall t, T <= t -> Monitor.find_process_by_port (net t) p = Some owner) ->
     let t_poll := now + 500 * ((T - now + 499) / 500) in
     t_poll - now < 1000 * timeout ->
     Monitor.wait_for_app_start net p timeout now = Some (Some owner, t_poll) /\
     T <= t_poll < T + 500).
Proof.
  split.
  - intros H. apply wait_idle. intros i Hi.
    rewrite find_not_listening; [reflexivity|].
    apply H. unfold Monitor.poll_interval. lia.
  - intros T owner HT Howner Hbefore Hafter t_poll Hin.
    set (k := (T - now + 499) / 500) in *.
    assert (Hk : 500 * k <= T - now + 499 < 500 * k + 500).
    { pose proof (Z.div_mod (T - now + 499) 500 ltac:(lia)) as Hd.
      pose proof (Z.mod_pos_bound (T - now + 499) 500 ltac:(lia)) as Hm.
      fold k in Hd. lia. }
    assert (Hk0 : 0 <= k) by lia.
    split; [|unfold t_poll; lia].
    apply (wait_found net p timeout now k owner); auto.
    + unfold Monitor.poll_interval. unfold t_poll in Hin. lia.
    + intros i Hi. rewrite find_not_listening; [reflexivity|].
      apply Hbefore. unfold Monitor.poll_interval. lia.
    + apply Hafter. unfold Monitor.poll_interval. lia.
Qed.

Lemma wait_for_app_start_polls_witness :
  Monitor.wait_for_app_start (fun _ => []) 8000 2 0 = Some (None, 2000) /\
  Monitor.wait_for_app_start (appears_at 700 8000 4242) 8000 30 0
  = Some (Some 4242, 1000) /\
  700 <= 1000 < 700 + 500.
Proof.
  split.
  - destruct (wait_for_app_start_polls (fun _ => []) 8000 2 0) as [H _].
    apply H. intros t _ (conn & [] & _).
  - destruct (wait_for_app_start_polls (appears_at 700 8000 4242) 8000 30 0)
      as [_ H].
    apply (H 700 4242); try lia.
    + intros t Ht (conn & Hc & _). unfold appears_at in Hc.
      destruct (Z.ltb_spec t 700); [destruct Hc|lia].
    + intros t Ht. unfold appears_at.
      destruct (Z.ltb_spec t 700); [lia|reflexivity].
    + reflexivity.
Defined.

(** A listener whose PID reads as 0 counts as not found. *)
Example wait_ignores_pid_zero :
  Monitor.wait_for_app_start (fun _ => [listener 8000 0]) 8000 1 0
  = Some (None, 1000).
Proof. reflexivity. Qed.

(** A listener that appears after the last poll is not found, however long
    before the timeout it appears. *)
Lemma wait_misses_late_listener (net : Z -> list Monitor.sconn)
  (p timeout now T : Z) :
  (forall t, now <= t < T -> ~ listens p (net t)) ->
  1000 * timeout <= 500 * ((T - now + 499) / 500) ->
  Monitor.wait_for_app_start net p timeout now
  = Some (None, now + 1000 * Z.max 0 timeout).
Proof.
  intros Hbefore Hlate. apply wait_idle. intros i Hi.
  rewrite find_not_listening; [reflexivity|].
  apply Hbefore. unfold Monitor.poll_interval.
  pose proof (Z.div_mod (T - now + 499) 500 ltac:(lia)) as Hd.
  pose proof (Z.mod_pos_bound (T - now + 499) 500 ltac:(lia)) as Hm.
  lia.
Qed.

(** * Further properties *)

Import Terms.

(** ** Loading an artifact *)

Section LoadFacts.

Lemma parse_lines_exit_iff (lines : list string) (d : Dict.t) :
  parse_lines lines d = Exit 1 <->
  exists line, In line lines /\ parse_line line = Bad.
Proof.
  revert d; induction lines as [|l lines IH]; intros d; simpl.
  - split; [discriminate | intros (? & [] & _)].
  - destruct (parse_line l) as [|func count|] eqn:E.
    + rewrite IH. split; intros (line & Hin & Hbad); exists line; split; auto.
      destruct Hin as [<-|Hin]; [congruence|exact Hin].
    + rewrite IH. split; intros (line & Hin & Hbad); exists line; split; auto.
      destruct Hin as [<-|Hin]; [congruence|exact Hin].
    + split; [intros _; exists l; auto | reflexivity].
Qed.

Lemma load_data_ingest (suffix content : string) (data : Dict.t) :
  load_data suffix content = Done data ->
  data = ingest (if String.eqb suffix ".svg" then svg_rows content
                 else rows (PyStr.readlines content)).
Proof.
  unfold load_data. destruct (String.eqb suffix ".svg").
  - apply svg_ingest.
  - destruct (String.eqb suffix ".json" || String.eqb suffix ".raw");
      [|discriminate]. apply parse_json_ingest.
Qed.

Lemma get_ingest (name : string) (frames : list (string * Z)) (d : Dict.t) :
  Dict.get name (fold_left add_frame frames d) =
  Dict.get name d + total (map snd (named name frames)).
Proof.
  revert d; induction frames as [|[f c] frames IH]; intros d; simpl; [lia|].
  rewrite IH. unfold add_frame. simpl. rewrite get_add.
  rewrite (String.eqb_sym name f).
  destruct (String.eqb f name); simpl; lia.
Qed.

End LoadFacts.

Section ExitFacts.

Lemma parse_line_bad (line : string) : parse_line line = Bad <-> bad_count line.
Proof.
  unfold parse_line, bad_count.
  destruct (PyStr.has_char PyStr.TAB line);
    [|split; [discriminate | intros [H _]; discriminate]].
  destruct (PyStr.split PyStr.TAB (PyStr.strip line))
    as [|func [|field rest]]; cbn [List.length Nat.leb nth].
  - split; [discriminate | intros (_ & ? & ? & ? & H & _); discriminate].
  - split; [discriminate | intros (_ & ? & ? & ? & H & _); discriminate].
  - destruct (PyStr.int field) eqn:E.
    + split; [discriminate|].
      intros (_ & ? & ? & ? & [= <- <- <-] & H). congruence.
    + split; [|reflexivity]. intros _. split; [reflexivity|].
      now exists func, field, rest.
Qed.

Lemma parse_json_exit (content : string) :
  _parse_json content = Exit 1 <->
  exists line, In line (PyStr.readlines content) /\ bad_count line.
Proof.
  unfold _parse_json. rewrite parse_lines_exit_iff.
  split; intros (line & Hin & H); exists line; split; auto;
    now apply parse_line_bad.
Qed.

End ExitFacts.

(** X1.  [load_data] ends the program with status 1 and no other.  It does
    so for every suffix other than [.svg], [.json] and [.raw]; for a flame
    graph exactly when the file is not UTF-8; and for an ASCII artifact
    exactly when the suffix is none of the three or the artifact is
    tab-delimited and one of its lines has a count that [int] rejects. *)
Theorem load_data_exits (suffix content : string) :
  (forall status, load_data suffix content = Exit status -> status = 1) /\
  (suffix <> ".svg" -> suffix <> ".json" -> suffix <> ".raw" ->
   load_data suffix content = Exit 1) /\
  (load_data ".svg" content = Exit 1 <-> PyStr.utf8 content = false) /\
  (all_chars PyStr.is_ascii content = true ->
   (load_data suffix content = Exit 1 <->
    (suffix <> ".svg" /\ suffix <> ".json" /\ suffix <> ".raw") \/
    ((suffix = ".json" \/ suffix = ".raw") /\
     exists line, In line (PyStr.readlines content) /\ bad_count line))).
Proof.
  split; [|split; [|split]].
  - intros status. unfold load_data.
    destruct (String.eqb suffix ".svg").
    + unfold _parse_svg. destruct (PyStr.decode content);
        [discriminate | now intros [= <-]].
    + destruct (String.eqb suffix ".json" || String.eqb suffix ".raw");
        [apply parse_lines_exit | now intros [= <-]].
  - intros Hsvg Hjson Hraw. unfold load_data.
    destruct (String.eqb_spec suffix ".svg") as [|_]; [contradiction|].
    destruct (String.eqb_spec suffix ".json") as [|_]; [contradiction|].
    destruct (String.eqb_spec suffix ".raw") as [|_]; [contradiction|].
    reflexivity.
  - change (load_data ".svg" content) with (_parse_svg content).
    rewrite parse_svg_exit. unfold PyStr.decode.
    destruct (PyStr.utf8 content); split; try discriminate; reflexivity.
  - intros Hascii. unfold load_data.
    destruct (String.eqb_spec suffix ".svg") as [->|Hsvg].
    + rewrite (parse_svg_read _ (utf8_ascii _ Hascii)).
      split; [discriminate|].
      intros [(H & _)|([H|H] & _)]; congruence.
    + destruct (String.eqb_spec suffix ".json") as [->|Hjson]; simpl.
      * rewrite parse_json_exit.
        split; [intros H; right; auto|].
        intros [(_ & H & _)|(_ & H)]; [congruence|exact H].
      * destruct (String.eqb_spec suffix ".raw") as [->|Hraw].
        -- rewrite parse_json_exit.
           split; [intros H; right; auto|].
           intros [(_ & _ & H)|(_ & H)]; [congruence|exact H].
        -- split; [intros _; left; auto|reflexivity].
Qed.

(** A tab-delimited artifact with a count that is no whole number, and a
    flame graph that ends in a byte no UTF-8 text has. *)
Lemma load_data_exits_witness :
  load_data ".raw" (tab_line "main" "7" ++ tab_line "run" "1.5") = Exit 1 /\
  load_data ".svg" ("<svg></svg>" ++ String (ascii_of_nat 255) "") = Exit 1.
Proof.
  split.
  - apply (proj2 (proj2 (proj2 (load_data_exits ".raw"
             (tab_line "main" "7" ++ tab_line "run" "1.5")))) eq_refl).
    right. split; [now right|].
    exists (tab_line "run" "1.5"). split; [right; left; reflexivity|].
    split; [reflexivity|]. now exists "run", "1.5", [].
  - apply (proj1 (proj2 (proj2 (load_data_exits ".svg"
             ("<svg></svg>" ++ String (ascii_of_nat 255) ""))))).
    reflexivity.
Defined.

(** A count of 4300 digits is read, one of 4301 digits is not. *)
Example int_digit_limit :
  PyStr.int (replicate 4300 "7") <> None /\
  PyStr.int (replicate 4301 "7") = None /\
  PyStr.int (String "-" (replicate 4300 "0")) = Some 0 /\
  load_data ".json" (tab_line "main" (replicate 4301 "7")) = Exit 1.
Proof.
  repeat split; try (vm_compute; reflexivity). vm_compute. discriminate.
Qed.

(** X2.  After a tab-delimited artifact is read, the keys of the table are
    the distinct frame names in the order in which they first occur, and
    each name carries the sum of the counts of all its lines. *)
Theorem table_sums_repeated_names (content : string) (data : Dict.t) :
  _parse_json content = Done data ->
  let frames := rows (PyStr.readlines content) in
  Dict.keys data = fresh [] (map fst frames) /\
  NoDup (Dict.keys data) /\
  forall name, Dict.get name data = total (map snd (named name frames)).
Proof.
  intros H frames. apply parse_json_ingest in H. fold frames in H. subst data.
  split; [|split].
  - unfold ingest. now rewrite keys_ingest.
  - apply keys_ingest_nodup.
  - intros name. unfold ingest. now rewrite get_ingest.
Qed.

Lemma table_sums_repeated_names_witness :
  let content := tab_line "main" "4" ++ tab_line "run_query" "3"
                 ++ tab_line "main" "-1" in
  Dict.keys [("main", 3); ("run_query", 3)] = ["main"; "run_query"] /\
  Dict.get "main" [("main", 3); ("run_query", 3)] = 4 + (-1 + 0).
Proof.
  intros content.
  destruct (table_sums_repeated_names content [("main", 3); ("run_query", 3)]
              eq_refl) as (Hkeys & _ & Hget).
  split; [exact Hkeys | exact (Hget "main")].
Defined.

(** X3.  After a flame graph is read, no frame is listed twice, every frame
    of the table has a count between 1 and the number of matched title
    fragments, and [total_samples] is that number.  A flame graph is read
    when it is UTF-8. *)
Theorem svg_table_counts (content : string) :
  PyStr.utf8 content = true ->
  exists data,
    _parse_svg content = Done data /\
    NoDup (Dict.keys data) /\
    (forall name count, In (name, count) data ->
       1 <= count <= Z.of_nat (List.length (matches content))) /\
    total_samples (analyze data) = Z.of_nat (List.length (matches content)).
Proof.
  intros Hutf8.
  assert (Hread : _parse_svg content = Done (ingest (svg_rows content))).
  { rewrite (parse_svg_read _ Hutf8). f_equal. apply tally_ingest. }
  exists (ingest (svg_rows content)). split; [exact Hread|].
  pose proof (keys_ingest_nodup (svg_rows content)) as Hnd.
  split; [exact Hnd|]. split.
  - intros name count Hin.
    pose proof (get_in _ _ _ Hnd Hin) as Hget.
    assert (Hkey : In name (map PyStr.strip (matches content))).
    { apply (in_map fst) in Hin. simpl in Hin.
      unfold ingest in Hin.
      fold (Dict.keys (fold_left add_frame (svg_rows content) Dict.empty)) in Hin.
      rewrite keys_ingest in Hin. simpl in Hin. apply fresh_in in Hin as [Hin _].
      unfold svg_rows in Hin. rewrite map_map in Hin. exact Hin. }
    unfold ingest, svg_rows in Hget.
    rewrite <- tally_ingest, get_count_matches in Hget. simpl in Hget.
    apply (count_occ_In string_dec) in Hkey.
    pose proof (count_occ_bound string_dec name
                  (map PyStr.strip (matches content))) as Hb.
    rewrite length_map in Hb. lia.
  - destruct (analyze_totals (ingest (svg_rows content))) as [-> _].
    unfold ingest. rewrite total_ingest. simpl. unfold svg_rows.
    rewrite map_map. simpl.
    induction (matches content) as [|m ms IH]; [reflexivity|].
    cbn [map total fold_right List.length snd]. rewrite Nat2Z.inj_succ.
    unfold total in IH. lia.
Qed.

Lemma svg_table_counts_witness :
  exists data,
    _parse_svg
      ("<svg><g><title>main (5 samples, 50%)</title></g>" ++
       "<g><title>run (7 samples, 70%)</title></g>" ++
       "<g><title>main (9 samples, 90%)</title></g></svg>") = Done data /\
    NoDup (Dict.keys data) /\
    total_samples (analyze data) = 3.
Proof.
  destruct (svg_table_counts
              ("<svg><g><title>main (5 samples, 50%)</title></g>" ++
               "<g><title>run (7 samples, 70%)</title></g>" ++
               "<g><title>main (9 samples, 90%)</title></g></svg>") eq_refl)
    as (data & Hread & Hnd & _ & Htotal).
  exists data. split; [exact Hread|]. split; [exact Hnd|].
  rewrite Htotal. vm_compute. reflexivity.
Defined.

(** ** The analysis *)

Section AnalysisFacts.

Lemma categorize_label (func : string) : In (_categorize_function func) labels.
Proof.
  unfold _categorize_function, labels.
  repeat match goal with
         | |- context [if ?b then _ else _] => destruct b
         end; simpl; auto 10.
Qed.

Lemma categories_ingest (data : Dict.t) :
  categories (analyze data) =
  ingest (map relabel (firstn 50 (sorted_desc data))).
Proof.
  unfold analyze, Dict.items. rewrite analyze_loop. cbn [categories].
  unfold ingest. generalize Dict.empty.
  induction (firstn 50 (sorted_desc data)) as [|it l IH]; intros d;
    cbn [map fold_left]; [reflexivity|]. apply IH.
Qed.

Lemma keys_add_nodup (k : string) (v : Z) (d : Dict.t) :
  NoDup (Dict.keys d) -> NoDup (Dict.keys (Dict.add k v d)).
Proof.
  intros H. rewrite keys_add.
  destruct (in_dec string_dec k (Dict.keys d)) as [|Hout]; [exact H|].
  apply NoDup_app; [exact H | repeat constructor; intros [] |].
  intros x Hx [<-|[]]. tauto.
Qed.

Lemma analyze_top_functions (data : Dict.t) :
  List.length (top_functions (analyze data)) =
  Nat.min 50 (List.length data).
Proof.
  unfold analyze, Dict.items. rewrite analyze_loop. cbn [top_functions app].
  rewrite length_map, length_firstn.
  now rewrite (Permutation_length (sorted_desc_permutation data)).
Qed.

End AnalysisFacts.

(** X4.  The categories of an analysis are distinct labels out of the seven
    of the taxonomy, and their totals add up to the samples of the ranked
    frames; when the table has at most 50 frames they add up to
    [total_samples]. *)
Theorem categories_partition_ranking (data : Dict.t) :
  let a := analyze data in
  NoDup (Dict.keys (categories a)) /\
  (forall category, In category (Dict.keys (categories a)) ->
     In category labels) /\
  total (Dict.values (categories a)) = total (map snd (ranking a)) /\
  ((List.length data <= 50)%nat ->
   total (Dict.values (categories a)) = total_samples a).
Proof.
  intros a. unfold a. rewrite categories_ingest, ranking_analyze.
  set (top := firstn 50 (sorted_desc data)).
  assert (Hsum : total (Dict.values (ingest (map relabel top))) =
                 total (map snd top)).
  { unfold ingest. rewrite total_ingest. simpl. rewrite map_map. reflexivity. }
  split; [apply keys_ingest_nodup|]. split; [|split].
  - intros category Hin. unfold ingest in Hin. rewrite keys_ingest in Hin.
    simpl in Hin. apply fresh_in in Hin as [Hin _].
    rewrite map_map in Hin. apply in_map_iff in Hin as (fr & <- & _).
    apply categorize_label.
  - exact Hsum.
  - intros Hlen. rewrite Hsum. destruct (analyze_totals data) as [-> _].
    unfold top. rewrite firstn_all2
      by now rewrite (Permutation_length (sorted_desc_permutation data)).
    apply total_permutation, Permutation_map, sorted_desc_permutation.
Qed.

(** X5.  The ranking of a loaded artifact has [min 50 n] entries for a table
    of [n] frames, names no frame twice, and gives each frame the count the
    table holds for it. *)
Theorem ranking_entries (suffix content : string) (data : Dict.t) :
  load_data suffix content = Done data ->
  let a := analyze data in
  List.length (top_functions a) = Nat.min 50 (unique_functions a) /\
  NoDup (map function (top_functions a)) /\
  forall entry, In entry (top_functions a) ->
    Dict.get (function entry) data = samples entry.
Proof.
  intros Hload a. apply load_data_ingest in Hload.
  assert (Hkeys : NoDup (Dict.keys data))
    by (rewrite Hload; apply keys_ingest_nodup).
  pose proof (sorted_desc_permutation data) as Hperm.
  assert (Hrank : map (fun e => (function e, samples e)) (top_functions a)
                  = firstn 50 (sorted_desc data)) by apply ranking_analyze.
  split; [|split].
  - unfold a. destruct (analyze_totals data) as [_ ->].
    apply analyze_top_functions.
  - replace (map function (top_functions a))
      with (map fst (map (fun e => (function e, samples e)) (top_functions a)))
      by (rewrite map_map; reflexivity).
    rewrite Hrank, <- firstn_map.
    apply (NoDup_app_remove_r _ (skipn 50 (map fst (sorted_desc data)))).
    rewrite firstn_skipn.
    apply (Permutation_NoDup (Permutation_sym (Permutation_map fst Hperm)) Hkeys).
  - intros entry Hin. apply get_in; [exact Hkeys|].
    apply (Permutation_in _ Hperm).
    rewrite <- (firstn_skipn 50). apply in_or_app. left.
    rewrite <- Hrank.
    exact (in_map (fun e => (function e, samples e)) _ _ Hin).
Qed.

Lemma ranking_entries_witness :
  let content := tab_line "render" "3" ++ tab_line "main" "5"
                 ++ tab_line "render" "2" in
  List.length (top_functions (analyze [("render", 5); ("main", 5)])) = 2%nat /\
  NoDup (map function (top_functions (analyze [("render", 5); ("main", 5)]))).
Proof.
  intros content.
  destruct (ranking_entries ".raw" content [("render", 5); ("main", 5)]
              eq_refl) as (Hlen & Hnd & _).
  split; [exact Hlen | exact Hnd].
Defined.

(** ** Recommendations *)

Section RecommendFacts.

Variable total : Z.

Lemma recommend_loop (items : list (string * Z)) (acc : list string) :
  fold_left (recommend_step total) items acc =
  (acc ++ flat_map (advice total) items)%list.
Proof.
  revert acc; induction items as [|[category count] items IH]; intros acc;
    simpl.
  - now rewrite app_nil_r.
  - rewrite IH. unfold advice at 2. simpl.
    destruct (String.eqb category "database"
              && PyFloat.gt_int (share count total) 20);
      [now rewrite <- app_assoc|].
    destruct (String.eqb category "async_io"
              && PyFloat.gt_int (share count total) 30);
      [now rewrite <- app_assoc|].
    destruct (String.eqb category "cache"
              && PyFloat.gt_int (share count total) 15);
      [now rewrite <- app_assoc|].
    reflexivity.
Qed.

Lemma advice_over_threshold (item : string * Z) :
  (over_threshold total item = true -> (3 <= List.length (advice total item))%nat)
  /\ (over_threshold total item = false -> advice total item = []).
Proof.
  unfold over_threshold, advice.
  destruct (String.eqb (fst item) "database"
            && PyFloat.gt_int (share (snd item) total) 20);
    [split; [simpl; lia | discriminate]|].
  destruct (String.eqb (fst item) "async_io"
            && PyFloat.gt_int (share (snd item) total) 30);
    [split; [simpl; lia | discriminate]|].
  destruct (String.eqb (fst item) "cache"
            && PyFloat.gt_int (share (snd item) total) 15);
    [split; [simpl; lia | discriminate]|].
  split; [discriminate | reflexivity].
Qed.

Lemma advice_weight (item : string * Z) :
  (List.length (advice total item) <=
   (if string_dec (fst item) "database" then 4 else 0)
   + (if string_dec (fst item) "async_io" then 3 else 0)
   + (if string_dec (fst item) "cache" then 3 else 0))%nat.
Proof.
  unfold advice.
  destruct (String.eqb_spec (fst item) "database") as [->|Hd]; simpl.
  - destruct (PyFloat.gt_int _ 20); simpl; lia.
  - destruct (String.eqb_spec (fst item) "async_io") as [->|Ha]; simpl.
    + destruct (PyFloat.gt_int _ 30); simpl; lia.
    + destruct (String.eqb_spec (fst item) "cache") as [->|Hc]; simpl.
      * destruct (PyFloat.gt_int _ 15); simpl; lia.
      * lia.
Qed.

Lemma advice_total_weight (items : list (string * Z)) :
  (List.length (flat_map (advice total) items) <=
   4 * count_occ string_dec (map fst items) "database"
   + 3 * count_occ string_dec (map fst items) "async_io"
   + 3 * count_occ string_dec (map fst items) "cache")%nat.
Proof.
  induction items as [|item items IH]; simpl; [lia|].
  rewrite length_app. pose proof (advice_weight item) as Hw.
  destruct (string_dec (fst item) "database"),
           (string_dec (fst item) "async_io"),
           (string_dec (fst item) "cache"); lia.
Qed.

Lemma advice_quiet (items : list (string * Z)) :
  forallb (fun item => negb (over_threshold total item)) items = true ->
  flat_map (advice total) items = [].
Proof.
  induction items as [|item items IH]; simpl; [reflexivity|].
  intros H. apply andb_prop in H as [Hitem Hrest].
  apply negb_true_iff in Hitem.
  rewrite (proj2 (advice_over_threshold item) Hitem). now apply IH.
Qed.

Lemma advice_loud (items : list (string * Z)) :
  forallb (fun item => negb (over_threshold total item)) items = false ->
  (3 <= List.length (flat_map (advice total) items))%nat.
Proof.
  induction items as [|item items IH]; simpl; [discriminate|].
  intros H. rewrite length_app.
  destruct (over_threshold total item) eqn:E.
  - pose proof (proj1 (advice_over_threshold item) E). lia.
  - simpl in H. specialize (IH H). lia.
Qed.

End RecommendFacts.

(** X6.  For an analysis with samples, the recommendations are the single
    "no bottleneck" line exactly when no category is over its threshold
    (database 20, async_io 30, cache 15 percent); a negative total never
    gives advice. *)
Theorem no_bottleneck_iff (a : analysis) :
  total_samples a <> 0 ->
  (_generate_recommendations a = [no_bottleneck] <->
   forallb (fun item => negb (over_threshold (total_samples a) item))
     (categories a) = true) /\
  (total_samples a < 0 -> _generate_recommendations a = [no_bottleneck]).
Proof.
  intros Hne. unfold _generate_recommendations, Dict.items.
  destruct (Z.eqb_spec (total_samples a) 0) as [|_]; [contradiction|].
  rewrite recommend_loop. simpl.
  set (total := total_samples a).
  pose proof (advice_quiet total (categories a)) as Hquiet.
  pose proof (advice_loud total (categories a)) as Hloud.
  split.
  - destruct (forallb _ (categories a)) eqn:E.
    + rewrite (Hquiet eq_refl). tauto.
    + specialize (Hloud eq_refl).
      destruct (flat_map (advice total) (categories a)) as [|r1 [|r2 rs]];
        simpl in Hloud; try lia.
      split; [discriminate | discriminate].
  - intros Hneg. rewrite Hquiet; [reflexivity|].
    apply forallb_forall. intros item _. apply negb_true_iff.
    unfold over_threshold, share.
    destruct (Z.ltb_spec 0 total) as [|_]; [unfold total in *; lia|].
    now rewrite !andb_false_r.
Qed.

Lemma no_bottleneck_iff_witness :
  _generate_recommendations (analyze [("main", 9); ("run_query", 1)])
  = [no_bottleneck].
Proof.
  apply (proj1 (no_bottleneck_iff (analyze [("main", 9); ("run_query", 1)])
                  ltac:(discriminate))).
  reflexivity.
Defined.

Lemma recommendations_length (data : Dict.t) :
  (1 <= List.length (_generate_recommendations (analyze data)) <= 10)%nat.
Proof.
  unfold _generate_recommendations, Dict.items.
  destruct (total_samples (analyze data) =? 0); [simpl; lia|].
  rewrite recommend_loop. simpl.
  pose proof (advice_total_weight (total_samples (analyze data))
                (categories (analyze data))) as Hw.
  assert (Hnd : NoDup (map fst (categories (analyze data)))).
  { rewrite categories_ingest. apply keys_ingest_nodup. }
  pose proof (proj1 (NoDup_count_occ string_dec _) Hnd) as Hc.
  pose proof (Hc "database"). pose proof (Hc "async_io"). pose proof (Hc "cache").
  destruct (flat_map _ _) as [|r rs]; cbn [List.length] in *; lia.
Qed.

(** X7.  The recommendations of an analysis are never empty and never more
    than ten lines: each of the three categories with advice is met at most
    once. *)
Theorem recommendations_bounded (data : Dict.t) :
  (1 <= List.length (_generate_recommendations (analyze data)) <= 10)%nat.
Proof. apply recommendations_length. Qed.

(** ** The text report *)

Section RenderFacts.



Lemma in_enumerate {A : Type} (l : list A) (start i : Z) (x : A) :
  In (i, x) (Render.enumerate start l) ->
  start <= i < start + Z.of_nat (List.length l) /\ In x l.
Proof.
  revert start; induction l as [|y l IH]; intros start; simpl; [tauto|].
  intros [[= <- <-]|H]; [split; [lia|auto]|].
  apply IH in H as [Hi Hx]. split; [lia|auto].
Qed.

Lemma length_times (n : nat) (c : ascii) :
  String.length (PyFormat.times n c) = n.
Proof. induction n; simpl; auto. Qed.

Lemma length_append (s1 s2 : string) :
  String.length (s1 ++ s2) = (String.length s1 + String.length s2)%nat.
Proof. induction s1; simpl; auto. Qed.

Lemma length_take (n : nat) (s : string) :
  String.length (PyFormat.take n s) = Nat.min n (String.length s).
Proof.
  revert s; induction n as [|n IH]; intros [|c s]; simpl; auto.
Qed.

Lemma take_short (n : nat) (s : string) :
  (String.length s <= n)%nat -> PyFormat.take n s = s.
Proof.
  revert s; induction n as [|n IH]; intros [|c s]; simpl; auto; try lia.
  intros H. f_equal. apply IH. lia.
Qed.

Lemma rank_width (i : Z) :
  1 <= i <= 20 -> String.length (PyFormat.format_d 2 i) = 2%nat.
Proof.
  intros H. destruct i as [|p|p]; try lia.
  do 5 (try (destruct p as [p|p|]; try lia)); reflexivity.
Qed.

End RenderFacts.

(** X9.  Every function line of the text report starts with a rank of two
    characters and a full stop, followed by the name of a ranked function in
    a column of exactly 40 characters: a longer name is cut, a shorter one is
    filled up with blanks. *)
Theorem function_lines_aligned (a : analysis) (line : string) :
  In line (function_lines a) ->
  exists i entry rest,
    In entry (top_functions a) /\ 1 <= i <= 20 /\
    line = PyFormat.format_d 2 i ++ ". "
           ++ PyFormat.format_s 40 (PyFormat.take 40 (function entry)) ++ rest /\
    String.length (PyFormat.format_d 2 i) = 2%nat /\
    String.length (PyFormat.format_s 40 (PyFormat.take 40 (function entry)))
      = 40%nat /\
    ((String.length (function entry) <= 40)%nat ->
     PyFormat.format_s 40 (PyFormat.take 40 (function entry)) =
     function entry ++ PyFormat.times (40 - String.length (function entry)) " ").
Proof.
  unfold function_lines. intros Hin.
  apply in_map_iff in Hin as ([i entry] & <- & Hin).
  apply in_enumerate in Hin as [Hi Hentry].
  rewrite length_firstn in Hi.
  assert (Hi' : 1 <= i <= 20) by lia.
  exists i, entry.
  eexists. split; [|split; [exact Hi'|split; [|split; [|split]]]].
  - rewrite <- (firstn_skipn 20). apply in_or_app. now left.
  - unfold Render.function_line. reflexivity.
  - now apply rank_width.
  - unfold PyFormat.format_s, PyFormat.ljust.
    rewrite length_append, length_times, length_take. lia.
  - intros Hshort. unfold PyFormat.format_s, PyFormat.ljust.
    now rewrite take_short.
Qed.

Lemma function_lines_aligned_witness :
  exists i entry rest,
    In entry (top_functions (analyze [("main", 7)])) /\ 1 <= i <= 20 /\
    Render.function_line (1, {| function := "main"; samples := 7;
                                percentage := PyFloat.round2 (share 7 7) |})
    = PyFormat.format_d 2 i ++ ". "
      ++ PyFormat.format_s 40 (PyFormat.take 40 (function entry)) ++ rest /\
    String.length (PyFormat.format_d 2 i) = 2%nat /\
    String.length (PyFormat.format_s 40 (PyFormat.take 40 (function entry)))
      = 40%nat /\
    ((String.length (function entry) <= 40)%nat ->
     PyFormat.format_s 40 (PyFormat.take 40 (function entry)) =
     function entry ++ PyFormat.times (40 - String.length (function entry)) " ").
Proof.
  apply (function_lines_aligned (analyze [("main", 7)])).
  left. reflexivity.
Defined.

(** ** Finding processes *)

Section JoinFacts.

Variable kw : string.
Variable sep : ascii.
Hypothesis kw_free : ~ In sep (list_ascii_of_string kw).

Lemma prefix_before_sep (a b : string) :
  String.prefix kw (a ++ String sep b) = true -> String.prefix kw a = true.
Proof.
  revert kw_free. generalize kw. clear kw.
  intros k; revert a; induction k as [|c k IH]; intros a Hfree H.
  - now destruct a.
  - destruct a as [|x a]; simpl in *.
    + destruct (Ascii.ascii_dec c sep) as [->|_]; [|discriminate]. tauto.
    + destruct (Ascii.ascii_dec c x); [|discriminate].
      apply IH; [tauto|exact H].
Qed.

Lemma occurs_around_sep (a b : string) :
  occurs_in kw (a ++ String sep b) -> occurs_in kw a \/ occurs_in kw b.
Proof.
  rewrite <- !contains_occurs.
  induction a as [|x a IH]; cbn [String.append]; rewrite contains_unfold.
  - destruct (String.prefix kw (String sep b)) eqn:E; [|auto].
    intros _. left.
    apply (prefix_before_sep "" b) in E. rewrite contains_unfold.
    now rewrite E.
  - destruct (String.prefix kw (String x (a ++ String sep b))) eqn:E.
    + intros _. left. apply (prefix_before_sep (String x a) b) in E.
      rewrite contains_unfold. now rewrite E.
    + intros H. destruct (IH H) as [Ha|Hb]; [left|right; exact Hb].
      rewrite contains_unfold, Ha.
      destruct (String.prefix kw (String x a)); reflexivity.
Qed.

End JoinFacts.

Section DiscoveryFacts.

Lemma occurs_append_l (kw a b : string) :
  occurs_in kw a -> occurs_in kw (a ++ b).
Proof.
  intros (before & after & ->). exists before, (after ++ b).
  induction before as [|c before IH]; simpl.
  - induction kw as [|c kw IHk]; simpl; [reflexivity|]. now rewrite IHk.
  - now rewrite IH.
Qed.

Lemma occurs_append_r (kw a b : string) :
  occurs_in kw b -> occurs_in kw (a ++ b).
Proof.
  intros (before & after & ->). exists (a ++ before), after.
  induction a as [|c a IH]; simpl; [reflexivity|]. now rewrite IH.
Qed.

(** A keyword without blanks occurs in the joined command line exactly when
    it occurs in one of the arguments. *)
Lemma occurs_join (kw : string) (args : list string) :
  kw <> "" -> ~ In " "%char (list_ascii_of_string kw) ->
  (occurs_in kw (String.concat " " args) <->
   exists arg, In arg args /\ occurs_in kw arg).
Proof.
  intros Hne Hfree. induction args as [|a args IH].
  - simpl. split; [|intros (? & [] & _)].
    intros (before & after & H). destruct before; [|discriminate].
    destruct kw; [congruence|discriminate].
  - destruct args as [|a' args].
    + simpl. split; [intros H; exists a; auto|].
      intros (arg & [<-|[]] & H). exact H.
    + change (String.concat " " (a :: a' :: args))
        with (a ++ String " " (String.concat " " (a' :: args))).
      split.
      * intros H. apply (occurs_around_sep kw " "%char Hfree) in H as [H|H].
        -- exists a. split; [now left|exact H].
        -- apply IH in H as (arg & Hin & H). exists arg. split; [now right|exact H].
      * intros (arg & [<-|Hin] & H).
        -- now apply occurs_append_l.
        -- apply occurs_append_r.
           change (String " " (String.concat " " (a' :: args)))
             with (" " ++ String.concat " " (a' :: args)).
           apply occurs_append_r. apply IH. eauto.
Qed.

Lemma listed_runs_uvicorn (proc : Discovery.proc_info) :
  listed proc = true <-> runs_uvicorn proc.
Proof.
  unfold listed, runs_uvicorn.
  destruct (Discovery.info_cmdline proc) as [[|a args]|].
  - split; [discriminate|]. intros (args & arg & [= <-] & [] & _).
  - rewrite contains_occurs, occurs_join.
    + split.
      * intros (arg & Hin & H). exists (a :: args), arg.
        split; [reflexivity|]. split; assumption.
      * intros (args' & arg & [= <-] & Hin & H). eauto.
    + discriminate.
    + simpl. intros H. repeat (destruct H as [H|H]; [discriminate H|]).
      exact H.
  - split; [discriminate|]. intros (args & arg & H & _). discriminate.
Qed.

Lemma scan_filter (table : list Discovery.proc_info)
  (processes : list Discovery.found) :
  Discovery.scan table processes =
  (processes ++ map entry (filter listed table))%list.
Proof.
  revert processes; induction table as [|proc table IH]; intros processes;
    simpl.
  - now rewrite app_nil_r.
  - unfold listed at 1.
    destruct (Discovery.info_cmdline proc) as [[|a args]|] eqn:Ec;
      try apply IH.
    destruct (PyStr.contains "uvicorn" (String.concat " " (a :: args)));
      [|apply IH].
    rewrite IH, <- app_assoc. cbn [app map]. unfold entry at 2.
    now rewrite Ec.
Qed.

Lemma sublist_filter {A B : Type} (f : A -> B) (keep : A -> bool)
  (l : list A) :
  sublist (map f (filter keep l)) (map f l).
Proof.
  induction l as [|x l IH]; simpl; [constructor|].
  destruct (keep x); simpl; now constructor.
Qed.

End DiscoveryFacts.

(** X10.  [find_uvicorn_processes] lists exactly the processes whose command
    line could be read and has an argument containing [uvicorn], each with
    its arguments joined by blanks, in the order of the enumeration; a
    process whose command line is missing or empty is passed over. *)
Theorem find_uvicorn_processes_lists (table : list Discovery.proc_info) :
  let found := Discovery.find_uvicorn_processes table in
  (forall r, In r found <->
     exists proc, In proc table /\ runs_uvicorn proc /\ r = entry proc) /\
  sublist (map Discovery.pid found) (map Discovery.info_pid table).
Proof.
  unfold Discovery.find_uvicorn_processes. rewrite scan_filter. simpl.
  split.
  - intros r. rewrite in_map_iff. split.
    + intros (proc & <- & Hin). apply filter_In in Hin as [Hin Hl].
      exists proc. split; [exact Hin|]. split; [|reflexivity].
      now apply listed_runs_uvicorn.
    + intros (proc & Hin & Hrun & ->). exists proc. split; [reflexivity|].
      apply filter_In. split; [exact Hin|]. now apply listed_runs_uvicorn.
  - rewrite map_map. simpl. apply sublist_filter.
Qed.

(** X11.  [find_process_by_port] answers with the PID field of the first
    connection that listens on the port, and with none when no connection
    does; connections after the first listener play no part. *)
Theorem find_process_by_port_first (connections : list Monitor.sconn) (p : Z) :
  Monitor.find_process_by_port connections p =
    match filter (listening p) connections with
    | [] => None
    | conn :: _ => Monitor.pid conn
    end /\
  forall conn more,
    In conn connections -> listening p conn = true ->
    Monitor.find_process_by_port (connections ++ more) p =
    Monitor.find_process_by_port connections p.
Proof.
  split.
  - induction connections as [|conn rest IH]; simpl; [reflexivity|].
    unfold listening at 1.
    destruct (String.eqb (Monitor.status conn) "LISTEN"
              && (Monitor.port (Monitor.laddr conn) =? p)); [reflexivity|].
    exact IH.
  - intros conn more Hin Hl.
    induction connections as [|c rest IH]; simpl; [destruct Hin|].
    destruct (String.eqb (Monitor.status c) "LISTEN"
              && (Monitor.port (Monitor.laddr c) =? p)) eqn:E; [reflexivity|].
    destruct Hin as [->|Hin]; [|now apply IH].
    unfold listening in Hl. congruence.
Qed.

Section WaitSound.

Import Monitor.

Variable net : Z -> list sconn.
Variables p timeout start : Z.

Lemma wait_loop_sound (fuel : nat) :
  forall now r t,
    wait_loop fuel net p timeout start now = Some (r, t) ->
    exists k, 0 <= k /\ t = now + 500 * k /\
      (forall i, 0 <= i < k ->
         now + 500 * i - start < 1000 * timeout /\
         truthy (find_process_by_port (net (now + 500 * i)) p) = false) /\
      match r with
      | Some pid =>
          t - start < 1000 * timeout /\ pid <> 0 /\
          find_process_by_port (net t) p = Some pid
      | None => 1000 * timeout <= t - start
      end.
Proof.
  induction fuel as [|fuel IH]; intros now r t; cbn [wait_loop];
    [discriminate|].
  destruct (Z.ltb_spec (now - start) (1000 * timeout)) as [Hin|Hout].
  - destruct (truthy (find_process_by_port (net now) p)) eqn:Hfound.
    + intros [= <- <-]. exists 0. split; [lia|]. split; [lia|].
      split; [intros; lia|].
      destruct (find_process_by_port (net now) p) as [pid|];
        [|discriminate]. simpl in Hfound.
      split; [exact Hin|]. split; [|reflexivity].
      destruct (Z.eqb_spec pid 0); [discriminate|assumption].
    + intros H. apply IH in H as (k & Hk & -> & Hidle & Hr).
      unfold poll_interval in *.
      exists (k + 1). split; [lia|]. split; [lia|]. split.
      * intros i Hi. destruct (Z.eq_dec i 0) as [->|Hi0].
        -- replace (now + 500 * 0) with now by lia. auto.
        -- replace (now + 500 * i) with (now + 500 + 500 * (i - 1)) by lia.
           apply Hidle. lia.
      * exact Hr.
  - intros [= <- <-]. exists 0. split; [lia|]. split; [lia|].
    split; [intros; lia|lia].
Qed.

End WaitSound.

(** X12.  When [wait_for_app_start] returns a PID, the PID is not 0 and was
    found on the port at the time of the return, which is a whole number of
    polling intervals after the start and before the timeout, and no earlier
    poll had found one; when it returns none, it does so exactly at the
    timeout (at once for a timeout of 0 or less) and no poll had found a
    PID. *)
Theorem wait_for_app_start_sound (net : Z -> list Monitor.sconn)
  (p timeout now : Z) (r : option Z) (t : Z) :
  Monitor.wait_for_app_start net p timeout now = Some (r, t) ->
  match r with
  | Some pid =>
      pid <> 0 /\ Monitor.find_process_by_port (net t) p = Some pid /\
      now <= t < now + 1000 * timeout /\ (t - now) mod 500 = 0 /\
      forall i, 0 <= i -> now + 500 * i < t ->
        Monitor.truthy (Monitor.find_process_by_port (net (now + 500 * i)) p)
        = false
  | None =>
      t = now + 1000 * Z.max 0 timeout /\
      forall i, 0 <= i < 2 * timeout ->
        Monitor.truthy (Monitor.find_process_by_port (net (now + 500 * i)) p)
        = false
  end.
Proof.
  unfold Monitor.wait_for_app_start. intros H.
  apply wait_loop_sound in H as (k & Hk & -> & Hidle & Hr).
  destruct r as [pid|].
  - destruct Hr as (Hin & Hpid & Hfound).
    split; [exact Hpid|]. split; [exact Hfound|]. split; [lia|].
    split.
    + replace (now + 500 * k - now) with (k * 500) by lia.
      apply Z.mod_mul. lia.
    + intros i Hi Hlt. apply Hidle. lia.
  - assert (Hlast : k = 0 \/ 0 < k) by lia.
    destruct Hlast as [->|Hpos].
    + split; [lia|]. intros i Hi. lia.
    + destruct (Hidle (k - 1) ltac:(lia)) as [Hprev _].
      split; [lia|]. intros i Hi. apply Hidle. lia.
Qed.

Lemma wait_for_app_start_sound_witness :
  4242 <> 0 /\
  Monitor.find_process_by_port (appears_at 700 8000 4242 1000) 8000
  = Some 4242 /\
  0 <= 1000 < 0 + 1000 * 30 /\ (1000 - 0) mod 500 = 0 /\
  forall i, 0 <= i -> 0 + 500 * i < 1000 ->
    Monitor.truthy
      (Monitor.find_process_by_port (appears_at 700 8000 4242 (0 + 500 * i))
         8000) = false.
Proof.
  exact (wait_for_app_start_sound (appears_at 700 8000 4242) 8000 30 0
           (Some 4242) 1000 eq_refl).
Defined.

(** ** What [kill_process_tree] lets through *)

(** X13.  Where the last-resort call ([taskkill] or [os.kill]) raises
    nothing but [OSError], no [Exception] leaves [kill_process_tree]: what it
    raises, if anything, is a [KeyboardInterrupt] or a [SystemExit]. *)
Theorem kill_process_tree_swallows_errors (world : Type)
  (sys : Monitor.os world) (pid : Z) :
  (forall w x w',
     (if Monitor.win32 world sys then Monitor.taskkill world sys pid
      else Monitor.os_kill world sys pid) w = (Monitor.Raise x, w') ->
     x = Monitor.OSError \/ Monitor.is_Exception x = false) ->
  forall w e w',
    Monitor.kill_process_tree sys pid w = (Monitor.Raise e, w') ->
    Monitor.is_Exception e = false.
Proof.
  intros Hlast w e w'. unfold Monitor.kill_process_tree.
  match goal with
  | |- context [Monitor.try_except (Monitor.try_except ?b _ _) _ _] =>
      generalize b
  end.
  intros body. unfold Monitor.try_except, Monitor.pass, Monitor.ret.
  destruct (body w) as [[u|e0] w0]; [discriminate|].
  destruct (Monitor.is_NoSuchProcess e0) eqn:En; [discriminate|].
  destruct (Monitor.is_Exception e0) eqn:Ee.
  - destruct ((if Monitor.win32 world sys then Monitor.taskkill world sys pid
               else Monitor.os_kill world sys pid) w0) as [[u|x] w1] eqn:El;
      [discriminate|].
    destruct (Hlast _ _ _ El) as [->|Hx]; [discriminate|].
    destruct (Monitor.is_OSError x); [discriminate|]. congruence.
  - congruence.
Qed.

Lemma kill_process_tree_swallows_errors_witness :
  Monitor.is_Exception Monitor.KeyboardInterrupt = false.
Proof.
  apply (kill_process_tree_swallows_errors Recording.world
           (Recording.sys (Recording.breaking [])) 20)
    with (w := [])
         (w' := [Recording.CallProcess 20; Recording.CallChildren 20;
                 Recording.CallWaitProcs []; Recording.CallTerminate 20;
                 Recording.CallWait 20]).
  - intros w x w'. simpl. unfold Recording.answer. simpl.
    intros [= <- _]. now left.
  - reflexivity.
Defined.

(** ** The order of the calls of [kill_process_tree] *)

Section SweepFacts.

Import Monitor Recording.

Variable s : script.

Lemma sweep_terminate (kids : list Z) (w : world) :
  (forall child, In child kids ->
     on_terminate s child = None \/ on_terminate s child = Some NoSuchProcess) ->
  for_each world kids (fun child =>
    try_except (terminate world (sys s) child) is_NoSuchProcess (pass world)) w
  = (Ok tt, (w ++ map CallTerminate kids)%list).
Proof.
  revert w; induction kids as [|c kids IH]; intros w H; cbn [for_each map].
  - unfold ret. now rewrite app_nil_r.
  - unfold bind at 1, try_except at 1. cbn [terminate sys]. unfold answer.
    destruct (H c (or_introl eq_refl)) as [-> | ->]; cbn.
    + rewrite IH by (intros; apply H; now right).
      now rewrite <- app_assoc.
    + rewrite IH by (intros; apply H; now right).
      now rewrite <- app_assoc.
Qed.

Lemma sweep_kill (alive : list Z) (w : world) :
  for_each world alive (fun p =>
    try_except (kill world (sys s) p) is_NoSuchProcess (pass world)) w
  = (Ok tt, (w ++ map CallKill alive)%list).
Proof.
  revert w; induction alive as [|c alive IH]; intros w; cbn [for_each map].
  - unfold ret. now rewrite app_nil_r.
  - unfold bind at 1, try_except at 1. cbn. rewrite IH.
    now rewrite <- app_assoc.
Qed.

End SweepFacts.

Lemma sweep_complete (s : Recording.script) (pid : Z)
  (w : Recording.world) :
  Recording.on_process s pid = None ->
  (forall child, In child (Recording.descendants s) ->
     Recording.on_terminate s child = None \/
     Recording.on_terminate s child = Some Monitor.NoSuchProcess) ->
  Recording.on_terminate s pid = None ->
  Recording.on_wait s pid = None ->
  Monitor.kill_process_tree (Recording.sys s) pid w =
  (Monitor.Ok tt,
   (w ++ Recording.sweep s pid ++ [Recording.CallWait pid])%list).
Proof.
  intros Hproc Hkids Hterm Hwait.
  unfold Monitor.kill_process_tree, Recording.sweep.
  unfold Monitor.try_except at 1 2.
  unfold Monitor.bind at 1. cbn [Monitor.Process Recording.sys].
  unfold Recording.answer at 1. rewrite Hproc.
  unfold Monitor.bind at 1. cbn [Monitor.children Recording.sys].
  unfold Recording.answer at 1.
  unfold Monitor.bind at 1. rewrite (sweep_terminate s _ _ Hkids).
  unfold Monitor.bind at 1. cbn [Monitor.wait_procs Recording.sys].
  unfold Recording.answer at 1.
  unfold Monitor.bind at 1. rewrite sweep_kill.
  unfold Monitor.bind at 1. cbn [Monitor.terminate Recording.sys].
  unfold Recording.answer at 1. rewrite Hterm.
  cbn [Monitor.wait Recording.sys]. unfold Recording.answer. rewrite Hwait.
  f_equal. rewrite <- !app_assoc. reflexivity.
Qed.


(** X14.  When no call fails, [kill_process_tree] asks for the descendants,
    terminates each of them, waits for them, kills the survivors, and only
    then terminates the process itself and waits for it; a descendant that
    is already gone ([NoSuchProcess]) does not stop the sweep, and the last
    resort is not used. *)
Theorem kill_process_tree_order (s : Recording.script) (pid : Z)
  (w : Recording.world) :
  Recording.on_process s pid = None ->
  (forall child, In child (Recording.descendants s) ->
     Recording.on_terminate s child = None \/
     Recording.on_terminate s child = Some Monitor.NoSuchProcess) ->
  Recording.on_terminate s pid = None ->
  Recording.on_wait s pid = None ->
  Monitor.kill_process_tree (Recording.sys s) pid w =
  (Monitor.Ok tt,
   (w ++ Recording.sweep s pid ++ [Recording.CallWait pid])%list).
Proof. apply sweep_complete. Qed.

Lemma kill_process_tree_order_witness :
  Monitor.kill_process_tree (Recording.sys (Recording.calm [21; 22] [22])) 20 []
  = (Monitor.Ok tt,
     [Recording.CallProcess 20; Recording.CallChildren 20;
      Recording.CallTerminate 21; Recording.CallTerminate 22;
      Recording.CallWaitProcs [21; 22]; Recording.CallKill 22;
      Recording.CallTerminate 20; Recording.CallWait 20]).
Proof.
  apply (kill_process_tree_order (Recording.calm [21; 22] [22]) 20 []);
    try reflexivity.
  intros child _. now left.
Defined.

Section LastResortFacts.

Import Monitor Recording.

Variable s : script.

Lemma last_resort_call (pid : Z) (w : world) :
  on_os_kill s pid = None \/ on_os_kill s pid = Some OSError ->
  try_except
    (if win32 world (sys s) then taskkill world (sys s) pid
     else os_kill world (sys s) pid)
    is_OSError (pass world) w
  = (Ok tt, (w ++ [last_resort s pid])%list).
Proof.
  intros H. unfold try_except, last_resort. cbn [win32 taskkill os_kill sys].
  destruct (is_win32 s); unfold answer; [reflexivity|].
  destruct H as [-> | ->]; reflexivity.
Qed.

Lemma sweep_terminate_stops (before after : list Z) (c : Z) (e : exn)
  (w : world) :
  (forall child, In child before ->
     on_terminate s child = None \/ on_terminate s child = Some NoSuchProcess) ->
  on_terminate s c = Some e -> is_NoSuchProcess e = false ->
  for_each world (before ++ c :: after) (fun child =>
    try_except (terminate world (sys s) child) is_NoSuchProcess (pass world)) w
  = (Raise e, (w ++ map CallTerminate before ++ [CallTerminate c])%list).
Proof.
  intros Hbefore Hc He.
  revert w; induction before as [|b before IH]; intros w;
    cbn [app for_each map].
  - unfold bind at 1, try_except at 1. cbn [terminate sys]. unfold answer.
    rewrite Hc, He. reflexivity.
  - unfold bind at 1, try_except at 1. cbn [terminate sys]. unfold answer.
    destruct (Hbefore b (or_introl eq_refl)) as [-> | ->]; cbn;
      rewrite IH by (intros; apply Hbefore; now right);
      now rewrite <- app_assoc.
Qed.

End LastResortFacts.

(** X15.  When the process is still there after [parent.wait(timeout=3)],
    [kill_process_tree] falls back on its last resort, [os.kill(pid,
    SIGTERM)] (or [taskkill] on Windows), once, after the whole sweep, and
    returns normally even if that call fails with an [OSError]. *)
Theorem kill_process_tree_escalates (s : Recording.script) (pid : Z)
  (w : Recording.world) :
  Recording.on_process s pid = None ->
  (forall child, In child (Recording.descendants s) ->
     Recording.on_terminate s child = None \/
     Recording.on_terminate s child = Some Monitor.NoSuchProcess) ->
  Recording.on_terminate s pid = None ->
  Recording.on_wait s pid = Some Monitor.TimeoutExpired ->
  Recording.on_os_kill s pid = None \/
  Recording.on_os_kill s pid = Some Monitor.OSError ->
  Monitor.kill_process_tree (Recording.sys s) pid w =
  (Monitor.Ok tt,
   (w ++ Recording.sweep s pid
      ++ [Recording.CallWait pid; Recording.last_resort s pid])%list).
Proof.
  intros Hproc Hkids Hterm Hwait Hlast.
  unfold Monitor.kill_process_tree, Recording.sweep.
  unfold Monitor.try_except at 1 2.
  unfold Monitor.bind at 1. cbn [Monitor.Process Recording.sys].
  unfold Recording.answer at 1. rewrite Hproc.
  unfold Monitor.bind at 1. cbn [Monitor.children Recording.sys].
  unfold Recording.answer at 1.
  unfold Monitor.bind at 1. rewrite (sweep_terminate s _ _ Hkids).
  unfold Monitor.bind at 1. cbn [Monitor.wait_procs Recording.sys].
  unfold Recording.answer at 1.
  unfold Monitor.bind at 1. rewrite sweep_kill.
  unfold Monitor.bind at 1. cbn [Monitor.terminate Recording.sys].
  unfold Recording.answer at 1. rewrite Hterm.
  cbn [Monitor.wait Recording.sys]. unfold Recording.answer at 1.
  rewrite Hwait. cbn [Monitor.is_NoSuchProcess Monitor.is_Exception].
  rewrite (last_resort_call s pid _ Hlast).
  f_equal. rewrite <- !app_assoc. reflexivity.
Qed.

Lemma kill_process_tree_escalates_witness :
  Monitor.kill_process_tree (Recording.sys (Recording.stubborn [21])) 20 []
  = (Monitor.Ok tt,
     [Recording.CallProcess 20; Recording.CallChildren 20;
      Recording.CallTerminate 21; Recording.CallWaitProcs [21];
      Recording.CallTerminate 20; Recording.CallWait 20;
      Recording.CallOsKill 20]).
Proof.
  apply (kill_process_tree_escalates (Recording.stubborn [21]) 20 []);
    try reflexivity.
  - intros child _. now left.
  - now right.
Defined.

(** X16.  When terminating a descendant is refused ([AccessDenied]), the
    sweep stops there: the descendants after it are not signalled, nothing
    is waited for or killed, and the last resort is sent to the process
    itself alone. *)
Theorem kill_process_tree_denied_child (s : Recording.script) (pid : Z)
  (before after : list Z) (child : Z) (w : Recording.world) :
  Recording.on_process s pid = None ->
  Recording.descendants s = (before ++ child :: after)%list ->
  (forall c, In c before ->
     Recording.on_terminate s c = None \/
     Recording.on_terminate s c = Some Monitor.NoSuchProcess) ->
  Recording.on_terminate s child = Some Monitor.AccessDenied ->
  Recording.on_os_kill s pid = None \/
  Recording.on_os_kill s pid = Some Monitor.OSError ->
  Monitor.kill_process_tree (Recording.sys s) pid w =
  (Monitor.Ok tt,
   (w ++ [Recording.CallProcess pid; Recording.CallChildren pid]
      ++ map Recording.CallTerminate before
      ++ [Recording.CallTerminate child; Recording.last_resort s pid])%list).
Proof.
  intros Hproc Hkids Hbefore Hchild Hlast.
  unfold Monitor.kill_process_tree.
  unfold Monitor.try_except at 1 2.
  unfold Monitor.bind at 1. cbn [Monitor.Process Recording.sys].
  unfold Recording.answer at 1. rewrite Hproc.
  unfold Monitor.bind at 1. cbn [Monitor.children Recording.sys].
  unfold Recording.answer at 1.
  unfold Monitor.bind at 1. rewrite Hkids.
  rewrite (sweep_terminate_stops s before after child Monitor.AccessDenied
             _ Hbefore Hchild eq_refl).
  cbn [Monitor.is_NoSuchProcess Monitor.is_Exception].
  rewrite (last_resort_call s pid _ Hlast).
  f_equal. rewrite <- !app_assoc. reflexivity.
Qed.

Lemma kill_process_tree_denied_child_witness :
  Monitor.kill_process_tree
    (Recording.sys (Recording.refusing [21; 22; 23] 22)) 20 []
  = (Monitor.Ok tt,
     [Recording.CallProcess 20; Recording.CallChildren 20;
      Recording.CallTerminate 21; Recording.CallTerminate 22;
      Recording.CallOsKill 20]).
Proof.
  apply (kill_process_tree_denied_child (Recording.refusing [21; 22; 23] 22)
           20 [21] [23] 22 []); try reflexivity.
  - intros c [<-|[]]. now left.
  - now left.
Defined.

(** ** The sampler driver *)

Section DriverFacts.

Import Monitor Recording.

Variable s : script.

Lemma with_duration_args (cmd : list string) (duration : option Z) :
  Driver.with_duration cmd duration = (cmd ++ duration_args duration)%list.
Proof.
  unfold Driver.with_duration, duration_args, truthy.
  destruct duration as [d|]; [|now rewrite app_nil_r].
  destruct (d =? 0); [now rewrite app_nil_r|reflexivity].
Qed.

Lemma run_py_spy_log (args : list string) (w : world) :
  Driver.run_py_spy (machine s) args w =
  (Ok (popen_count w + 1),
   (w ++ [CallPopen ("py-spy" :: args); CallAppend (popen_count w + 1)])%list).
Proof.
  unfold Driver.run_py_spy, bind, ret. cbn [Driver.Popen Driver.append machine].
  unfold answer. now rewrite <- app_assoc.
Qed.

Lemma appended_app (w1 w2 : world) :
  appended (w1 ++ w2)%list = (appended w1 ++ appended w2)%list.
Proof.
  induction w1 as [|c w1 IH]; simpl; [reflexivity|].
  destruct c; simpl; now rewrite ?IH.
Qed.

Lemma handler_step (proc : Z) (w : world) :
  on_proc_signal s proc = None \/ on_proc_signal s proc = Some OSError ->
  try_except
    (if win32 world (Driver.host_os world (machine s))
     then Driver.proc_kill world (machine s) proc
     else Driver.proc_terminate world (machine s) proc)
    is_OSError (pass world) w
  = (Ok tt, (w ++ [stop_signal s proc])%list).
Proof.
  intros H. unfold try_except, stop_signal.
  cbn [win32 Driver.host_os Driver.proc_kill Driver.proc_terminate machine sys].
  destruct (is_win32 s); unfold answer; destruct H as [-> | ->]; reflexivity.
Qed.

Lemma handler_loop (procs : list Z) (w : world) :
  (forall proc, In proc procs ->
     on_proc_signal s proc = None \/ on_proc_signal s proc = Some OSError) ->
  for_each world procs (fun proc =>
    try_except
      (if win32 world (Driver.host_os world (machine s))
       then Driver.proc_kill world (machine s) proc
       else Driver.proc_terminate world (machine s) proc)
      is_OSError (pass world)) w
  = (Ok tt, (w ++ map (stop_signal s) procs)%list).
Proof.
  revert w; induction procs as [|proc procs IH]; intros w H;
    cbn [for_each map].
  - unfold ret. now rewrite app_nil_r.
  - unfold bind at 1. rewrite handler_step by (apply H; now left).
    rewrite IH by (intros; apply H; now right).
    now rewrite <- app_assoc.
Qed.

Lemma signal_handler_log (w : world) :
  (forall proc, In proc (appended w) ->
     on_proc_signal s proc = None \/ on_proc_signal s proc = Some OSError) ->
  Driver.signal_handler (machine s) w =
  (Raise SystemExit, (w ++ map (stop_signal s) (appended w))%list).
Proof.
  intros H. unfold Driver.signal_handler.
  unfold bind at 1. cbn [Driver.global_processes machine].
  unfold bind at 1. rewrite (handler_loop _ _ H). reflexivity.
Qed.

End DriverFacts.

(** X17.  Left alone, [monitor_top] starts one sampler, [py-spy top --pid
    PID], with [--duration D] only for a duration other than 0, enters it in
    [global_processes] and waits for it; the monitored process is not
    touched. *)
Theorem monitor_top_launches (s : Recording.script) (pid : Z)
  (duration : option Z) (w : Recording.world) :
  Recording.interrupted s = false ->
  let proc := Recording.popen_count w + 1 in
  Driver.monitor_top (Recording.machine s) pid duration w =
  (Monitor.Ok tt,
   (w ++ [Recording.CallPopen
            ("py-spy" :: "top" :: "--pid" :: PyFormat.str pid
               :: Recording.duration_args duration);
          Recording.CallAppend proc; Recording.CallProcWait proc])%list).
Proof.
  intros Hcalm proc. unfold Driver.monitor_top.
  unfold Monitor.bind at 1. rewrite run_py_spy_log, with_duration_args.
  unfold Monitor.try_except.
  cbn [Driver.proc_wait Recording.machine]. rewrite Hcalm.
  cbn [andb]. f_equal. rewrite <- app_assoc. reflexivity.
Qed.

Lemma monitor_top_launches_witness :
  Driver.monitor_top (Recording.machine (Recording.calm [] [])) 4242 (Some 0) []
  = (Monitor.Ok tt,
     [Recording.CallPopen ["py-spy"; "top"; "--pid"; "4242"];
      Recording.CallAppend 1; Recording.CallProcWait 1]).
Proof.
  apply (monitor_top_launches (Recording.calm [] []) 4242 (Some 0) []).
  reflexivity.
Defined.

(** X18.  When Ctrl-C arrives while [record_profile] waits for the sampler,
    the tree of the monitored process is stopped first, by the whole sweep of
    [kill_process_tree], and only then is the sampler terminated and waited
    for; the function returns normally. *)
Theorem record_profile_interrupted (s : Recording.script) (pid : Z)
  (output : string) (duration : option Z) (rate : Z) (w : Recording.world) :
  Recording.interrupted s = true ->
  existsb Recording.is_proc_wait w = false ->
  Recording.on_process s pid = None ->
  (forall child, In child (Recording.descendants s) ->
     Recording.on_terminate s child = None \/
     Recording.on_terminate s child = Some Monitor.NoSuchProcess) ->
  Recording.on_terminate s pid = None ->
  Recording.on_wait s pid = None ->
  let proc := Recording.popen_count w + 1 in
  Recording.on_proc_signal s proc = None ->
  Driver.record_profile (Recording.machine s) pid output duration rate w =
  (Monitor.Ok tt,
   (w ++ [Recording.CallPopen
            ("py-spy" :: "record" :: "-o" :: output :: "--rate"
               :: PyFormat.str rate :: "--pid" :: PyFormat.str pid
               :: Recording.duration_args duration);
          Recording.CallAppend proc; Recording.CallProcWait proc]
      ++ Recording.sweep s pid ++ [Recording.CallWait pid]
      ++ [Recording.CallProcTerminate proc; Recording.CallProcWait proc])%list).
Proof.
  intros Hint Hfresh Hproc Hkids Hterm Hwait proc Hsig.
  unfold Driver.record_profile.
  unfold Monitor.bind at 1. rewrite run_py_spy_log, with_duration_args.
  fold proc. unfold Monitor.try_except.
  cbn [Driver.proc_wait Recording.machine]. rewrite Hint.
  rewrite !existsb_app, Hfresh. cbn [existsb Recording.is_proc_wait orb andb negb].
  cbn [Driver.is_KeyboardInterrupt]. unfold Driver.stop.
  unfold Monitor.bind at 1. cbn [Driver.host_os Recording.machine].
  rewrite (sweep_complete s pid _ Hproc Hkids Hterm Hwait).
  unfold Monitor.bind at 1. cbn [Driver.proc_terminate Recording.machine].
  unfold Recording.answer. rewrite Hsig.
  cbn [Driver.proc_wait Recording.machine]. rewrite Hint.
  rewrite !existsb_app, Hfresh.
  cbn [existsb Recording.is_proc_wait orb andb negb].
  f_equal. rewrite <- !app_assoc. reflexivity.
Qed.

Lemma record_profile_interrupted_witness :
  Driver.record_profile (Recording.machine (Recording.interrupting [21] []))
    20 "profile.svg" (Some 60) 100 []
  = (Monitor.Ok tt,
     [Recording.CallPopen
        ["py-spy"; "record"; "-o"; "profile.svg"; "--rate"; "100"; "--pid";
         "20"; "--duration"; "60"];
      Recording.CallAppend 1; Recording.CallProcWait 1;
      Recording.CallProcess 20; Recording.CallChildren 20;
      Recording.CallTerminate 21; Recording.CallWaitProcs [21];
      Recording.CallTerminate 20; Recording.CallWait 20;
      Recording.CallProcTerminate 1; Recording.CallProcWait 1]).
Proof.
  apply (record_profile_interrupted (Recording.interrupting [21] []) 20
           "profile.svg" (Some 60) 100 []); try reflexivity.
  intros child _. now left.
Defined.

(** X19.  [signal_handler] signals every process of [global_processes] once,
    in the order in which they were started, an [OSError] of one of them
    notwithstanding, and then leaves through [sys.exit]; a sampler that
    [run_py_spy] has just started is among them. *)
Theorem signal_handler_reaches_all (s : Recording.script)
  (w : Recording.world) (args : list string) :
  (forall proc,
     Recording.on_proc_signal s proc = None \/
     Recording.on_proc_signal s proc = Some Monitor.OSError) ->
  Driver.signal_handler (Recording.machine s) w =
    (Monitor.Raise Monitor.SystemExit,
     (w ++ map (Recording.stop_signal s) (Recording.appended w))%list) /\
  let proc := Recording.popen_count w + 1 in
  Monitor.bind (Driver.run_py_spy (Recording.machine s) args)
    (fun _ => Driver.signal_handler (Recording.machine s)) w =
    (Monitor.Raise Monitor.SystemExit,
     (w ++ [Recording.CallPopen ("py-spy" :: args); Recording.CallAppend proc]
        ++ map (Recording.stop_signal s) (Recording.appended w ++ [proc]))%list).
Proof.
  intros Hsig. split.
  - apply signal_handler_log. intros proc _. apply Hsig.
  - intros proc. unfold Monitor.bind. rewrite run_py_spy_log.
    rewrite signal_handler_log by (intros p _; apply Hsig).
    rewrite appended_app. cbn [Recording.appended].
    fold proc. now rewrite <- app_assoc.
Qed.

Lemma signal_handler_reaches_all_witness :
  Monitor.bind
    (Driver.run_py_spy (Recording.machine (Recording.calm [] [])) ["dump"])
    (fun _ => Driver.signal_handler (Recording.machine (Recording.calm [] [])))
    [Recording.CallPopen ["py-spy"; "top"]; Recording.CallAppend 1]
  = (Monitor.Raise Monitor.SystemExit,
     [Recording.CallPopen ["py-spy"; "top"]; Recording.CallAppend 1;
      Recording.CallPopen ["py-spy"; "dump"]; Recording.CallAppend 2;
      Recording.CallProcTerminate 1; Recording.CallProcTerminate 2]).
Proof.
  apply (proj2 (signal_handler_reaches_all (Recording.calm [] [])
                  [Recording.CallPopen ["py-spy"; "top"]; Recording.CallAppend 1]
                  ["dump"] (fun _ => or_introl eq_refl))).
Defined.

(** ** A title fragment is matched *)

Section FragmentFacts.

Import Re.

Lemma all_chars_app (f : ascii -> bool) (a b : string) :
  all_chars f (a ++ b) = all_chars f a && all_chars f b.
Proof.
  induction a as [|c a IH]; simpl; [reflexivity|].
  now rewrite IH, andb_assoc.
Qed.

Lemma append_assoc (a b c : string) : (a ++ b) ++ c = a ++ b ++ c.
Proof. induction a as [|x a IH]; simpl; [reflexivity|]. now rewrite IH. Qed.

Lemma drop_prefix_app (l s : string) : drop_prefix l (l ++ s) = Some s.
Proof.
  induction l as [|a l IH]; simpl; [reflexivity|].
  now rewrite Ascii.eqb_refl.
Qed.

Lemma read_plain (a b : string) :
  all_chars (not_char PyStr.CR) a = true ->
  PyStr.read (a ++ b) = a ++ PyStr.read b.
Proof.
  induction a as [|c a IH]; [reflexivity|].
  cbn [all_chars String.append]. intros H. apply andb_prop in H as [Hc Ha].
  unfold not_char in Hc. apply negb_true_iff in Hc.
  cbn [PyStr.read]. rewrite Hc. now rewrite IH.
Qed.

(** A repetition takes all of [u] when what follows cannot go on and the
    rest of the pattern matches there. *)
Lemma star_loop_greedy (k : group -> string -> option (string * string))
  (cls : ascii -> bool) (u v : string) :
  all_chars cls u = true ->
  all_chars cls (PyFormat.take 1 v) = false \/ v = "" ->
  forall g r, k (feed_string u g) v = Some r ->
    star_loop k cls g (u ++ v) = Some r.
Proof.
  intros Hu Hv. induction u as [|c u IH]; intros g r Hk.
  - cbn [String.append feed_string] in *. destruct v as [|c v].
    + exact Hk.
    + destruct Hv as [Hv|Hv]; [|discriminate].
      cbn in Hv. rewrite andb_true_r in Hv. cbn [star_loop]. now rewrite Hv.
  - cbn [all_chars] in Hu. apply andb_prop in Hu as [Hc Hu].
    cbn [String.append star_loop]. rewrite Hc.
    now rewrite (IH Hu (feed c g) r Hk).
Qed.

(** A repetition gives back [w] when the rest of the pattern fails
    everywhere inside [w] and after it. *)
Lemma star_loop_gives_back (k : group -> string -> option (string * string))
  (cls : ascii -> bool) (w v : string) :
  all_chars cls (PyFormat.take 1 v) = false \/ v = "" ->
  (forall w1 w2 g, w = w1 ++ w2 -> w1 <> "" -> k g (w2 ++ v) = None) ->
  forall g, star_loop k cls g (w ++ v) = k g (w ++ v).
Proof.
  intros Hv. induction w as [|c w IH]; intros Hfail g.
  - cbn [String.append]. destruct v as [|c v]; [reflexivity|].
    destruct Hv as [Hv|Hv]; [|discriminate].
    cbn in Hv. rewrite andb_true_r in Hv. cbn [star_loop]. now rewrite Hv.
  - cbn [String.append star_loop]. destruct (cls c); [|reflexivity].
    rewrite IH.
    + now rewrite (Hfail (String c "") w (feed c g) eq_refl).
    + intros w1 w2 g' -> Hne. apply (Hfail (String c w1) w2 g');
        [reflexivity|discriminate].
Qed.

Lemma star_loop_backtracks (k : group -> string -> option (string * string))
  (cls : ascii -> bool) (u w v : string) :
  all_chars cls u = true ->
  all_chars cls (PyFormat.take 1 v) = false \/ v = "" ->
  (forall w1 w2 g, w = w1 ++ w2 -> w1 <> "" -> k g (w2 ++ v) = None) ->
  forall g r, k (feed_string u g) (w ++ v) = Some r ->
    star_loop k cls g (u ++ w ++ v) = Some r.
Proof.
  intros Hu Hv Hfail. induction u as [|c u IH]; intros g r Hk.
  - cbn [String.append feed_string] in *.
    now rewrite star_loop_gives_back.
  - cbn [all_chars] in Hu. apply andb_prop in Hu as [Hc Hu].
    cbn [String.append star_loop]. rewrite Hc.
    now rewrite (IH Hu (feed c g) r Hk).
Qed.

(** Where no parenthesis opens before the next tag, the part of the pattern
    after the name fails. *)
Lemma no_parenthesis (p : list item) (a v : string) :
  all_chars (not_char "(") a = true ->
  forall g, star_loop (match_here (Lit "(" :: p)) PyStr.is_space g
              (a ++ String "<" v) = None.
Proof.
  intros Ha. induction a as [|c a IH]; intros g.
  - reflexivity.
  - cbn [all_chars] in Ha. apply andb_prop in Ha as [Hc Ha].
    unfold not_char in Hc. apply negb_true_iff in Hc.
    cbn [String.append star_loop]. rewrite (IH Ha).
    assert (Hk : match_here (Lit "(" :: p) g (String c (a ++ String "<" v))
                 = None).
    { cbn [match_here drop_prefix]. rewrite Ascii.eqb_sym, Hc. reflexivity. }
    rewrite Hk. now destruct (PyStr.is_space c).
Qed.

Lemma suffix_all_chars (f : ascii -> bool) (w w1 w2 : string) :
  w = w1 ++ w2 -> all_chars f w = true -> all_chars f w2 = true.
Proof.
  intros ->. rewrite all_chars_app. intros H. now apply andb_prop in H.
Qed.

Lemma feed_string_inside (u : string) (acc : list ascii) :
  feed_string u (Inside acc) =
  Inside (rev (list_ascii_of_string u) ++ acc)%list.
Proof.
  revert acc; induction u as [|c u IH]; intros acc; simpl; [reflexivity|].
  rewrite IH. now rewrite <- app_assoc.
Qed.

Lemma feed_string_after (u text : string) :
  feed_string u (After text) = After text.
Proof. induction u as [|c u IH]; simpl; auto. Qed.

Lemma space_not_digit (c : ascii) :
  PyStr.is_space c = true -> PyStr.is_digit c = false.
Proof.
  unfold PyStr.is_space, PyStr.is_digit. generalize (PyStr.code c). intros n H.
  apply andb_false_iff.
  destruct (Nat.leb_spec 48 n); [|now left]. right.
  apply orb_prop in H as [H|H]; apply andb_prop in H as [_ H];
    apply Nat.leb_le in H; lia.
Qed.

End FragmentFacts.

Section FragmentMatch.

Import Re.

Lemma match_here_lit (l : string) (p : list item) (g : group) (s : string) :
  match_here (Lit l :: p) g (l ++ s) = match_here p (feed_string l g) s.
Proof. cbn [match_here]. now rewrite drop_prefix_app. Qed.

Lemma match_here_lit_char (c : ascii) (p : list item) (g : group)
  (s : string) :
  match_here (Lit (String c "") :: p) g (String c s)
  = match_here p (feed c g) s.
Proof. cbn [match_here drop_prefix feed_string]. now rewrite Ascii.eqb_refl. Qed.

Lemma match_here_star (cls : ascii -> bool) (p : list item) (g : group)
  (s : string) :
  match_here (Star cls :: p) g s = star_loop (match_here p) cls g s.
Proof. reflexivity. Qed.

Lemma match_here_one (cls : ascii -> bool) (p : list item) (g : group)
  (c : ascii) (s : string) :
  cls c = true ->
  match_here (One cls :: p) g (String c s) = match_here p (feed c g) s.
Proof. intros H. cbn [match_here]. now rewrite H. Qed.

Lemma feed_string_before (u : string) : feed_string u Before = Before.
Proof. induction u as [|c u IH]; simpl; auto. Qed.

Variables attrs blank text number blank' tail rest : string.

Hypothesis attrs_ok : all_chars (not_char ">") attrs = true.
Hypothesis blank_ok : all_chars PyStr.is_space blank = true.
Hypothesis text_ok : all_chars (not_char "<") text = true.
Hypothesis text_some : text <> "".
Hypothesis number_ok : all_chars PyStr.is_digit number = true.
Hypothesis number_some : number <> "".
Hypothesis blank'_ok : all_chars PyStr.is_space blank' = true.
Hypothesis tail_ok : all_chars plain tail = true.

Lemma plain_digit (s : string) :
  all_chars PyStr.is_digit s = true -> all_chars plain s = true.
Proof.
  induction s as [|c s IH]; cbn [all_chars]; [reflexivity|].
  intros H. apply andb_prop in H as [Hc Hs]. rewrite (IH Hs), andb_true_r.
  unfold plain, not_char.
  destruct (Ascii.eqb_spec c "<") as [->|_]; [discriminate|].
  destruct (Ascii.eqb_spec c "(") as [->|_]; [discriminate|]. reflexivity.
Qed.

Lemma plain_space (s : string) :
  all_chars PyStr.is_space s = true -> all_chars plain s = true.
Proof.
  induction s as [|c s IH]; cbn [all_chars]; [reflexivity|].
  intros H. apply andb_prop in H as [Hc Hs]. rewrite (IH Hs), andb_true_r.
  unfold plain, not_char.
  destruct (Ascii.eqb_spec c "<") as [->|_]; [discriminate|].
  destruct (Ascii.eqb_spec c "(") as [->|_]; [discriminate|]. reflexivity.
Qed.

Lemma plain_split (s : string) :
  all_chars plain s = true ->
  all_chars (not_char "<") s = true /\ all_chars (not_char "(") s = true.
Proof.
  induction s as [|c s IH]; cbn [all_chars]; [auto|].
  intros H. apply andb_prop in H as [Hc Hs]. unfold plain in Hc.
  apply andb_prop in Hc as [-> ->]. destruct (IH Hs) as [-> ->]. auto.
Qed.

Lemma inner_plain : all_chars plain (inner number blank' tail) = true.
Proof.
  unfold inner. rewrite !all_chars_app.
  rewrite (plain_digit _ number_ok), (plain_space _ blank'_ok), tail_ok.
  reflexivity.
Qed.

(** The pattern after the name, on the text from the parenthesis on. *)
Lemma after_name (acc : list ascii) :
  match_here
    [Close; Star PyStr.is_space; Lit "("; One PyStr.is_digit;
     Star PyStr.is_digit; Star PyStr.is_space; Lit "samples";
     Star (not_char "<"); Lit "</title>"]
    (Inside acc) ("(" ++ inner number blank' tail ++ "</title>" ++ rest)
  = Some (string_of_list_ascii (rev acc), rest).
Proof.
  unfold inner. rewrite !append_assoc.
  change (match_here (Close :: ?p) (Inside acc) ?s)
    with (match_here p (After (string_of_list_ascii (rev acc))) s).
  rewrite match_here_star.
  apply (star_loop_greedy _ _ "");
    [reflexivity | left; reflexivity |]. cbn [feed_string].
  rewrite match_here_lit_char. cbn [feed].
  destruct number as [|d ds]; [contradiction|].
  cbn [all_chars] in number_ok. apply andb_prop in number_ok as [Hd Hds].
  change (String d ds ++ ?x) with (String d (ds ++ x)).
  rewrite (match_here_one _ _ _ _ _ Hd).
  cbn [feed]. rewrite match_here_star.
  apply star_loop_greedy; [exact Hds | | ].
  { left. destruct blank' as [|b bs]; [reflexivity|].
    cbn [all_chars] in blank'_ok. apply andb_prop in blank'_ok as [Hb _].
    cbn. now rewrite (space_not_digit _ Hb). }
  rewrite feed_string_after, match_here_star.
  apply star_loop_greedy; [exact blank'_ok | left; reflexivity |].
  rewrite feed_string_after, match_here_lit, feed_string_after.
  rewrite match_here_star.
  apply star_loop_greedy;
    [exact (proj1 (plain_split _ tail_ok)) | left; reflexivity |].
  rewrite feed_string_after, match_here_lit, feed_string_after.
  reflexivity.
Qed.

Lemma fragment_matched :
  match_here svg_title Before
    (title_fragment attrs blank text number blank' tail ++ rest)
  = Some (text, rest).
Proof.
  assert (E0 : svg_title =
    [Lit "<g"; Star (not_char ">"); Lit ">"; Star PyStr.is_space;
     Lit "<title>"; Open; One (not_char "<"); Star (not_char "<"); Close;
     Star PyStr.is_space; Lit "("; One PyStr.is_digit; Star PyStr.is_digit;
     Star PyStr.is_space; Lit "samples"; Star (not_char "<");
     Lit "</title>"]) by reflexivity.
  rewrite E0. unfold title_fragment. rewrite !append_assoc.
  rewrite match_here_lit, feed_string_before, match_here_star.
  apply star_loop_greedy; [exact attrs_ok | left; reflexivity |].
  rewrite feed_string_before, match_here_lit, feed_string_before.
  rewrite match_here_star.
  apply star_loop_greedy; [exact blank_ok | left; reflexivity |].
  rewrite feed_string_before, match_here_lit, feed_string_before.
  change (match_here (Open :: ?p) Before ?s) with (match_here p (Inside []) s).
  destruct text as [|c text'] eqn:Etext; [contradiction|].
  cbn [all_chars] in text_ok. apply andb_prop in text_ok as [Hc Htext'].
  change (String c text' ++ ?x) with (String c (text' ++ x)).
  rewrite (match_here_one _ _ _ _ _ Hc).
  cbn [feed]. rewrite match_here_star.
  replace (text' ++ "(" ++ number ++ blank' ++ "samples" ++ tail ++ "</title>"
           ++ rest)
    with (text' ++ ("(" ++ inner number blank' tail) ++ "</title>" ++ rest)
    by (unfold inner; now rewrite !append_assoc).
  pose proof inner_plain as Hinner.
  destruct (plain_split _ Hinner) as [Hlt Hpar].
  apply star_loop_backtracks.
  - exact Htext'.
  - left. reflexivity.
  - intros w1 w2 g Hw Hne. destruct w1 as [|x w1]; [contradiction|].
    cbn [String.append] in Hw. injection Hw as _ Hw.
    change (match_here (Close :: Star PyStr.is_space :: ?p) g ?s)
      with (star_loop (match_here p) PyStr.is_space (close g) s).
    change ("</title>" ++ rest) with (String "<" ("/title>" ++ rest)).
    apply no_parenthesis. exact (suffix_all_chars _ _ _ _ Hw Hpar).
  - rewrite feed_string_inside, append_assoc, after_name.
    rewrite rev_app_distr, rev_involutive. cbn [rev app string_of_list_ascii].
    now rewrite string_of_list_ascii_of_string.
Qed.

End FragmentMatch.

(** ** A flame graph of title fragments *)

Section FlameGraphFacts.

Import Re.

Lemma append_empty (s : string) : s ++ "" = s.
Proof. induction s as [|c s IH]; simpl; [reflexivity|]. now rewrite IH. Qed.

Lemma all_chars_both (f g : ascii -> bool) (s : string) :
  all_chars (fun c => f c && g c) s = all_chars f s && all_chars g s.
Proof.
  induction s as [|c s IH]; simpl; [reflexivity|]. rewrite IH.
  destruct (f c), (g c), (all_chars f s), (all_chars g s); reflexivity.
Qed.

Lemma ordinary_text (s : string) :
  all_chars ordinary s = true ->
  all_chars PyStr.is_ascii s = true /\ PyStr.read s = s.
Proof.
  intros H. unfold ordinary in H. rewrite all_chars_both in H.
  apply andb_prop in H as [Hascii Hcr]. split; [exact Hascii|].
  rewrite <- (append_empty s) at 1. rewrite (read_plain _ _ Hcr).
  apply append_empty.
Qed.

Lemma digit_ordinary (s : string) :
  all_chars PyStr.is_digit s = true -> all_chars ordinary s = true.
Proof.
  induction s as [|c s IH]; cbn [all_chars]; [reflexivity|].
  intros H. apply andb_prop in H as [Hc Hs]. rewrite (IH Hs), andb_true_r.
  unfold PyStr.is_digit in Hc. apply andb_prop in Hc as [Hlo Hhi].
  apply Nat.leb_le in Hlo, Hhi.
  unfold ordinary, PyStr.is_ascii, not_char. apply andb_true_intro. split.
  - apply Nat.ltb_lt. lia.
  - apply negb_true_iff, Ascii.eqb_neq. intros ->.
    vm_compute in Hlo. lia.
Qed.

(** The scan passes over text in which no group opens. *)
Lemma scan_quiet (between rest : string) :
  quiet between = true -> String.prefix "g" rest = false ->
  findall svg_title (between ++ rest) = findall svg_title rest.
Proof.
  unfold quiet. induction between as [|c s IH]; [reflexivity|].
  rewrite contains_unfold.
  destruct (String.prefix "<g" (String c s)) eqn:Ep; [discriminate|].
  intros Hs Hrest. specialize (IH Hs Hrest).
  unfold findall in *. cbn [String.append String.length findall_from].
  assert (Hnone : match_here svg_title Before (String c (s ++ rest)) = None).
  { assert (E0 : svg_title = Lit "<g" :: List.tl svg_title) by reflexivity.
    rewrite E0. cbn [match_here drop_prefix].
    destruct (Ascii.eqb_spec "<" c) as [<-|_]; [|reflexivity].
    destruct s as [|b s].
    - cbn [String.append]. destruct rest as [|b rest]; [reflexivity|].
      cbn [String.prefix] in Hrest.
      destruct (Ascii.eqb_spec "g" b) as [<-|_]; [|reflexivity].
      destruct (Ascii.ascii_dec "g" "g");
        [destruct rest; discriminate Hrest | congruence].
    - cbn [String.append].
      destruct (Ascii.eqb_spec "g" b) as [<-|_]; [|reflexivity].
      cbn in Ep. destruct s; discriminate Ep. }
  rewrite Hnone. exact IH.
Qed.

(** A well-formed fragment is matched where it stands and gives its
    text. *)
Lemma scan_fragment (f : fragment) (rest : string) :
  well_formed f = true ->
  findall svg_title (render f ++ rest) = fr_text f :: findall svg_title rest.
Proof.
  unfold well_formed, sample_number.
  rewrite !andb_true_iff, !negb_true_iff, !String.eqb_neq.
  intros [[[[[[Ha Hb] Ht] Htne] [Hn Hnne]] Hg] Htail].
  unfold findall at 1. cbn [findall_from]. unfold render.
  rewrite (fragment_matched _ _ _ _ _ _ rest Ha Hb Ht Htne Hn Hnne Hg Htail).
  f_equal. apply findall_fuel.
  rewrite length_append. unfold title_fragment.
  rewrite length_append. simpl. lia.
Qed.

Lemma render_opens (f : fragment) (rest : string) :
  String.prefix "g" (render f ++ rest) = false.
Proof. reflexivity. Qed.

Lemma findall_flame_graph (body : list (fragment * string)) :
  forall head,
    well_formed_graph head body = true ->
    findall svg_title (flame_graph head body) = map fr_text (map fst body).
Proof.
  unfold well_formed_graph.
  induction body as [|[f between] body IH]; intros head H;
    apply andb_prop in H as [Hhead Hbody].
  - cbn [flame_graph map]. rewrite <- (append_empty head).
    now rewrite scan_quiet.
  - cbn [forallb fst snd] in Hbody.
    apply andb_prop in Hbody as [Hf Hbody]. apply andb_prop in Hf as [Hf Hb].
    cbn [flame_graph map fst].
    rewrite scan_quiet by (auto using render_opens).
    rewrite (scan_fragment _ _ Hf). f_equal.
    apply IH. now rewrite Hb, Hbody.
Qed.

Lemma all_chars_flame_graph (P : ascii -> bool)
  (body : list (fragment * string)) :
  forall head,
    all_chars P (flame_graph head body) =
    all_chars P head
    && forallb (fun p => all_chars P (render (fst p)) && all_chars P (snd p))
         body.
Proof.
  induction body as [|[f between] body IH]; intros head;
    cbn [flame_graph forallb fst snd].
  - now rewrite andb_true_r.
  - rewrite !all_chars_app, IH. now rewrite !andb_assoc.
Qed.

Lemma render_with_number (n : string) (f : fragment) :
  all_chars ordinary (render f) = true -> sample_number n = true ->
  all_chars ordinary (render (with_number n f)) = true.
Proof.
  unfold sample_number. intros H Hn. apply andb_prop in Hn as [Hn _].
  apply digit_ordinary in Hn. revert H.
  unfold render, title_fragment, with_number. cbn [fr_attrs fr_blank fr_text
    fr_number fr_gap fr_tail].
  rewrite !all_chars_app, !andb_true_iff. tauto.
Qed.

Lemma well_formed_with_number (n : string) (f : fragment) :
  well_formed f = true -> sample_number n = true ->
  well_formed (with_number n f) = true.
Proof.
  unfold well_formed, with_number. cbn [fr_attrs fr_blank fr_text
    fr_number fr_gap fr_tail].
  rewrite !andb_true_iff. tauto.
Qed.

Lemma renumber_graph (numbers : list string) :
  forall body,
    forallb sample_number numbers = true ->
    (forallb (fun p => well_formed (fst p) && quiet (snd p)) body = true ->
     forallb (fun p => well_formed (fst p) && quiet (snd p))
       (renumber numbers body) = true) /\
    (forallb (fun p => all_chars ordinary (render (fst p))
                       && all_chars ordinary (snd p)) body = true ->
     forallb (fun p => all_chars ordinary (render (fst p))
                       && all_chars ordinary (snd p))
       (renumber numbers body) = true) /\
    frame_names (renumber numbers body) = frame_names body.
Proof.
  induction numbers as [|n numbers IH]; intros [|[f between] body] Hn;
    cbn [renumber]; auto.
  cbn [forallb] in Hn. apply andb_prop in Hn as [Hn Hrest].
  destruct (IH body Hrest) as (IH1 & IH2 & IH3).
  cbn [forallb fst snd frame_names map fr_text with_number].
  split; [|split].
  - rewrite !andb_true_iff. intros [[Hf Hq] Hbody].
    auto using well_formed_with_number.
  - rewrite !andb_true_iff. intros [[Hf Hq] Hbody].
    auto using render_with_number.
  - f_equal. exact IH3.
Qed.

(** What [_parse_svg] makes of a flame graph of title fragments. *)
Lemma parse_flame_graph (head : string) (body : list (fragment * string)) :
  well_formed_graph head body = true ->
  all_chars ordinary (flame_graph head body) = true ->
  matches (flame_graph head body) = map fr_text (map fst body) /\
  _parse_svg (flame_graph head body) =
    Done (fold_left count_match (map fr_text (map fst body)) Dict.empty).
Proof.
  intros Hgraph Hord. destruct (ordinary_text _ Hord) as [Hascii Hread].
  assert (Hm : matches (flame_graph head body) = map fr_text (map fst body)).
  { unfold matches. rewrite Hread. now apply findall_flame_graph. }
  split; [exact Hm|].
  rewrite (parse_svg_read _ (utf8_ascii _ Hascii)). now rewrite Hm.
Qed.

End FlameGraphFacts.

(** C3.  An ASCII flame graph is read, and the table holds, for each frame,
    the number of matches of the title pattern whose stripped text is that
    frame.  When the flame graph is made of title fragments
    [<g ...> <title>TEXT(N samples ...</title>], with text between them in
    which no group opens, the matches are the fragments, one each and in
    their order: a frame's count is the number of fragments whose text,
    stripped, is that frame, and the same flame graph with any other numbers
    [N] gives the same table. *)
Theorem svg_counts_fragments :
  (forall content,
     all_chars PyStr.is_ascii content = true ->
     exists data,
       _parse_svg content = Done data /\
       forall name,
         Dict.get name data =
         Z.of_nat
           (count_occ string_dec (map PyStr.strip (matches content)) name))
  /\
  (forall head body,
     well_formed_graph head body = true ->
     all_chars ordinary (flame_graph head body) = true ->
     matches (flame_graph head body) = map fr_text (map fst body) /\
     exists data,
       _parse_svg (flame_graph head body) = Done data /\
       (forall name,
          Dict.get name data =
          Z.of_nat (count_occ string_dec (frame_names body) name)) /\
       (forall numbers,
          forallb sample_number numbers = true ->
          _parse_svg (flame_graph head (renumber numbers body)) = Done data)).
Proof.
  split.
  - intros content Hascii. eexists.
    split; [exact (parse_svg_read _ (utf8_ascii _ Hascii))|].
    intros name. now rewrite get_count_matches.
  - intros head body Hgraph Hord.
    destruct (parse_flame_graph head body Hgraph Hord) as [Hm Hread].
    split; [exact Hm|]. eexists. split; [exact Hread|]. split.
    + intros name. rewrite get_count_matches. simpl.
      unfold frame_names. now rewrite !map_map.
    + intros numbers Hn.
      unfold well_formed_graph in Hgraph.
      apply andb_prop in Hgraph as [Hhead Hbody].
      rewrite all_chars_flame_graph in Hord.
      apply andb_prop in Hord as [Hohead Hobody].
      destruct (renumber_graph numbers body Hn) as (Hwf & Hor & Hnames).
      destruct (parse_flame_graph head (renumber numbers body)) as [_ ->].
      * unfold well_formed_graph. now rewrite Hhead, (Hwf Hbody).
      * rewrite all_chars_flame_graph. now rewrite Hohead, (Hor Hobody).
      * f_equal. unfold frame_names in Hnames.
        rewrite !tally_ingest, !map_map. cbn [fst].
        rewrite <- (map_map (fun p => PyStr.strip (fr_text (fst p)))
                      (fun k => (k, 1))), Hnames.
        now rewrite map_map.
Qed.

(** Three frames of a flame graph, two of them for [main] with 5 and 900
    samples: [main] is counted twice, and the table stays the same when the
    numbers are 1, 2 and 3. *)
Lemma svg_counts_fragments_witness :
  let body :=
    [({| fr_attrs := " class='f'"; fr_blank := ""; fr_text := "main (app.py:3) ";
         fr_number := "5"; fr_gap := " "; fr_tail := ", 0.5%)" |},
      "<rect/></g>" ++ PyStr.NL);
     ({| fr_attrs := ""; fr_blank := PyStr.NL; fr_text := "run ";
         fr_number := "7"; fr_gap := " "; fr_tail := ", 0.7%)" |},
      "<rect/></g>" ++ PyStr.NL);
     ({| fr_attrs := ""; fr_blank := ""; fr_text := "main (app.py:3) ";
         fr_number := "900"; fr_gap := " "; fr_tail := ", 90%)" |},
      "<rect/></g></svg>")] in
  matches (flame_graph "<svg>" body)
    = ["main (app.py:3) "; "run "; "main (app.py:3) "] /\
  exists data,
    _parse_svg (flame_graph "<svg>" body) = Done data /\
    Dict.get "main (app.py:3)" data = 2 /\
    Dict.get "run" data = 1 /\
    _parse_svg (flame_graph "<svg>" (renumber ["1"; "2"; "3"] body)) = Done data.
Proof.
  intros body.
  destruct (proj2 svg_counts_fragments "<svg>" body eq_refl eq_refl)
    as (Hm & data & Hread & Hget & Hnumbers).
  split; [exact Hm|]. exists data. split; [exact Hread|].
  split; [rewrite Hget; reflexivity|].
  split; [rewrite Hget; reflexivity|].
  apply Hnumbers. reflexivity.
Defined.

(** X20.  A title fragment [<g ...> <title>TEXT(N samples...)</title>]
    is matched where it stands, and what [_parse_svg] takes from it is
    [TEXT] alone, stripped, with a count of 1: neither the number [N] nor
    what follows it reaches the table.  The scan goes on after the
    fragment. *)
Theorem title_fragment_counted
  (attrs blank text number blank' tail rest : string) :
  all_chars (Re.not_char ">") attrs = true ->
  all_chars PyStr.is_space blank = true ->
  all_chars (Re.not_char "<") text = true -> text <> "" ->
  all_chars PyStr.is_digit number = true -> number <> "" ->
  all_chars PyStr.is_space blank' = true ->
  all_chars plain tail = true ->
  all_chars (Re.not_char PyStr.CR)
    (title_fragment attrs blank text number blank' tail) = true ->
  let content := title_fragment attrs blank text number blank' tail ++ rest in
  matches content = text :: matches rest /\
  svg_rows content = (PyStr.strip text, 1) :: svg_rows rest.
Proof.
  intros Ha Hb Ht Htne Hn Hnne Hb' Htail Hcr content.
  assert (Hm : matches content = text :: matches rest).
  { unfold matches, content. rewrite (read_plain _ _ Hcr).
    unfold Re.findall. cbn [Re.findall_from].
    rewrite (fragment_matched attrs blank text number blank' tail
               (PyStr.read rest) Ha Hb Ht Htne Hn Hnne Hb' Htail).
    f_equal. apply findall_fuel.
    rewrite length_append. unfold title_fragment.
    rewrite length_append. simpl. lia. }
  split; [exact Hm|]. unfold svg_rows. now rewrite Hm.
Qed.

Lemma title_fragment_counted_witness :
  matches
    (title_fragment " class='f'" " " "main (app.py:3) " "900" " " ", 90%)"
     ++ "<rect/></g>")
  = ["main (app.py:3) "].
Proof.
  apply (proj1 (title_fragment_counted " class='f'" " " "main (app.py:3) "
                  "900" " " ", 90%)" "<rect/></g>"
                  eq_refl eq_refl eq_refl ltac:(discriminate)
                  eq_refl ltac:(discriminate) eq_refl eq_refl eq_refl)).
Defined.

(** X21.  [wait_for_app_start] always returns, and never later than the
    timeout: at the start for a timeout of 0 or less. *)
Theorem wait_for_app_start_bounded (net : Z -> list Monitor.sconn)
  (p timeout now : Z) :
  exists r t,
    Monitor.wait_for_app_start net p timeout now = Some (r, t) /\
    now <= t <= now + 1000 * Z.max 0 timeout.
Proof.
  destruct (wait_for_app_start_returns net p timeout now) as [[r t] H].
  exists r, t. split; [exact H|].
  unfold Monitor.wait_for_app_start in H.
  apply wait_loop_sound in H as (k & Hk & -> & Hidle & Hr).
  assert (Hlast : k = 0 \/ 0 < k) by lia.
  destruct Hlast as [->|Hpos]; [lia|].
  destruct (Hidle (k - 1) ltac:(lia)) as [Hprev _].
  destruct r as [pid|]; lia.
Qed.

(** ** The lines of the text report *)

Section LineFacts.

























End LineFacts.

(** ** Names of a tab-delimited artifact *)

Section NameFacts.













End NameFacts.



